(** * minecraft_coord_tracker: the coordinate tracker of [main.py]

    A shallow embedding of [CoordinateTracker] (text normalisation and
    coordinate extraction, the image enhancer with its throttled debug
    snapshot, and the acquisition loop with its cadence delay), followed by
    the properties proved about it. *)

From Stdlib Require Import Strings.String Strings.Ascii.
From Stdlib Require Import List Bool Arith NArith ZArith QArith Qminmax Qround Lia Lqa.
From Stdlib Require Import Floats.SpecFloat.
Import ListNotations.
Close Scope Q_scope.

Set Implicit Arguments.

(* ================================================================== *)
(** * Python strings *)

(** A Python [str] is a sequence of Unicode code points. *)
Definition char := N.
Definition pystr := list char.

(** String literals of this file are written as UTF-8 text and decoded to
    code points.  [need] is the number of continuation bytes still expected
    and [acc] the bits collected so far. *)
Fixpoint utf8_aux (need : nat) (acc : N) (bs : list N) : pystr :=
  match bs with
  | [] => []
  | b :: r =>
      match need with
      | O =>
          if (b <? 128)%N then b :: utf8_aux 0 0%N r
          else if (b <? 224)%N then utf8_aux 1 (b mod 32)%N r
          else if (b <? 240)%N then utf8_aux 2 (b mod 16)%N r
          else utf8_aux 3 (b mod 8)%N r
      | S O => (acc * 64 + b mod 64)%N :: utf8_aux 0 0%N r
      | S k => utf8_aux k (acc * 64 + b mod 64)%N r
      end
  end.

Definition utf8 (s : string) : pystr :=
  utf8_aux 0 0%N (map N_of_ascii (list_ascii_of_string s)).

Module Ch.
Definition space : char := 32%N.       (* ' ' *)
Definition plus : char := 43%N.        (* '+' *)
Definition minus : char := 45%N.       (* '-' *)
Definition dot : char := 46%N.         (* '.' *)
Definition zero : char := 48%N.        (* '0' *)
Definition one : char := 49%N.         (* '1' *)
Definition colon : char := 58%N.       (* ':' *)
Definition semicolon : char := 59%N.   (* ';' *)
Definition letter_I : char := 73%N.    (* 'I' *)
Definition letter_O : char := 79%N.    (* 'O' *)
Definition bar : char := 124%N.        (* '|' *)
Definition fw_colon : char := 65306%N. (* U+FF1A, the full-width colon *)
Definition newline : char := 10%N.     (* '\n' *)
Definition tab : char := 9%N.          (* '\t' *)
End Ch.

(** [str.isspace] on one code point: the characters CPython's
    [_PyUnicode_IsWhitespace] accepts. *)
Definition is_whitespace (c : char) : bool :=
  ((9 <=? c) && (c <=? 13) || (28 <=? c) && (c <=? 32)
   || (c =? 133) || (c =? 160) || (c =? 5760)
   || (8192 <=? c) && (c <=? 8202)
   || (c =? 8232) || (c =? 8233) || (c =? 8239) || (c =? 8287)
   || (c =? 12288))%N.

(** [s.replace(old, new)] where [old] is one code point, which is how every
    call of [extract_coordinates] uses it: each occurrence of [old] becomes
    [new], everything else is kept. *)
Definition replace (old : char) (new : pystr) (s : pystr) : pystr :=
  flat_map (fun c => if (c =? old)%N then new else [c]) s.

(** [sep in s] for a one-character [sep]. *)
Definition contains (sep : char) (s : pystr) : bool :=
  existsb (fun c => (c =? sep)%N) s.

(** [s.split(sep)] for a one-character [sep]: the segments between the
    separators, in order; never the empty list. *)
Fixpoint split (sep : char) (s : pystr) : list pystr :=
  match s with
  | [] => [[]]
  | c :: r =>
      if (c =? sep)%N then [] :: split sep r
      else match split sep r with
           | seg :: segs => (c :: seg) :: segs
           | [] => [[c]]
           end
  end.

(* ================================================================== *)
(** * Unicode decimal digits *)

(** [\d] in a [str] pattern and [float] on a [str] both go through the
    interpreter's Unicode database: a code point is a digit when
    [Py_UNICODE_TODECIMAL] gives its value.  The table depends on the Unicode
    version of the interpreter; what is fixed is its ASCII part. *)
Definition ascii_decimal (c : char) : option N :=
  if ((48 <=? c) && (c <=? 57))%N then Some (c - 48)%N else None.

Record UnicodeDb := {
  to_decimal : char -> option N;
  to_decimal_ascii : forall c, (c < 128)%N -> to_decimal c = ascii_decimal c
}.

(** The database that knows the ASCII digits only. *)
Definition ascii_db : UnicodeDb :=
  {| to_decimal := ascii_decimal;
     to_decimal_ascii := fun c _ => eq_refl |}.

Section Extract.

Variable U : UnicodeDb.

Definition is_digit (c : char) : bool :=
  match to_decimal U c with Some _ => true | None => false end.

Definition is_sign (c : char) : bool :=
  ((c =? Ch.minus) || (c =? Ch.plus))%N.

(* ------------------------------------------------------------------ *)
(** ** The pattern [[-+]?\d+\.?\d*] *)

(** The longest prefix of [s] whose characters satisfy [p], and the rest. *)
Fixpoint span (p : char -> bool) (s : pystr) : pystr * pystr :=
  match s with
  | [] => ([], [])
  | c :: r =>
      if p c then let (a, b) := span p r in (c :: a, b)
      else ([], s)
  end.

(** [\d+\.?\d*] at the start of [s]: the match and what follows it.  All
    three quantifiers are greedy and nothing after [\d+] can fail, so the
    first attempt is the match. *)
Definition match_unsigned (s : pystr) : option (pystr * pystr) :=
  let (ds, s1) := span is_digit s in
  match ds with
  | [] => None
  | _ :: _ =>
      match s1 with
      | c :: s2 =>
          if (c =? Ch.dot)%N
          then let (fs, s3) := span is_digit s2 in Some (ds ++ c :: fs, s3)
          else Some (ds, s1)
      | [] => Some (ds, [])
      end
  end.

(** The whole pattern at the start of [s].  [[-+]?] first takes the sign;
    when the rest then fails, the engine backtracks and tries without it. *)
Definition match_number (s : pystr) : option (pystr * pystr) :=
  match s with
  | [] => None
  | c :: r =>
      if is_sign c then
        match match_unsigned r with
        | Some (tok, rest) => Some (c :: tok, rest)
        | None => match_unsigned s
        end
      else match_unsigned s
  end.

(** [re.findall]: scan left to right; where the pattern matches, emit the
    match and resume right after it, otherwise move one character on.
    [skip] counts the characters of the last match still to be passed. *)
Fixpoint findall_aux (skip : nat) (s : pystr) : list pystr :=
  match s with
  | [] => []
  | _ :: r =>
      match skip with
      | S k => findall_aux k r
      | O =>
          match match_number s with
          | Some (tok, _) => tok :: findall_aux (length tok - 1) r
          | None => findall_aux 0 r
          end
      end
  end.

Definition findall (s : pystr) : list pystr := findall_aux 0 s.

(* ------------------------------------------------------------------ *)
(** ** [float] *)

(** A Python float is an IEEE 754 binary64 number. *)
Definition float := spec_float.
Definition prec : Z := 53.
Definition emax : Z := 1024.

(** The value of a digit string, most significant digit first. *)
Definition digits_value (ds : pystr) : N :=
  fold_left (fun acc c =>
    (acc * 10 + match to_decimal U c with Some d => d | None => 0 end)%N) ds 0%N.

(** The binary64 number nearest to (-1)^neg * m / 10^k, ties to even. *)
Definition float_of_decimal (neg : bool) (m : N) (k : nat) : float :=
  match m with
  | N0 => S754_zero neg
  | Npos p => SFdiv prec emax (S754_finite neg p 0)
                (S754_finite false (Z.to_pos (10 ^ Z.of_nat k)) 0)
  end.

(** [float(s)] on a string made of signs, digits and points, [None] being
    [ValueError]: an optional sign, then digits with an optional point and
    optional further digits, or a point followed by digits.  (On strings
    with other characters [float] also accepts exponents, underscores,
    surrounding blanks, [inf] and [nan]; no match of the pattern above has
    such a character, and this model answers [None] on them.) *)
Definition float_unsigned (neg : bool) (s0 : pystr) : option float :=
  let (ip, s1) := span is_digit s0 in
  let (fp, s2) :=
    match s1 with
    | c :: r => if (c =? Ch.dot)%N then span is_digit r else ([], s1)
    | [] => ([], s1)
    end in
  match ip ++ fp, s2 with
  | _ :: _, [] =>
      Some (float_of_decimal neg (digits_value (ip ++ fp)) (length fp))
  | _, _ => None
  end.

Definition float_of_str (s : pystr) : option float :=
  match s with
  | c :: r =>
      if is_sign c then float_unsigned (c =? Ch.minus)%N r
      else float_unsigned false s
  | [] => None
  end.

(* ------------------------------------------------------------------ *)
(** ** [extract_coordinates] *)

(** Line 45: the chain of [replace] calls. *)
Definition normalize (text : pystr) : pystr :=
  replace Ch.letter_O [Ch.zero]
    (replace Ch.letter_I [Ch.one]
      (replace Ch.bar []
        (replace Ch.semicolon [Ch.colon]
          (replace Ch.fw_colon [Ch.colon]
            (replace Ch.space [] text))))).

(** Lines 48-49: [if ':' in clean_text: clean_text = clean_text.split(':')[-1]]. *)
Definition anchor (clean_text : pystr) : pystr :=
  if contains Ch.colon clean_text
  then last (split Ch.colon clean_text) []
  else clean_text.

(** Lines 54-61.  A [ValueError] of [float] is caught and falls through to
    [return None]. *)
Definition first_three (numbers : list pystr) : option (float * float * float) :=
  if 3 <=? length numbers then
    match float_of_str (nth 0 numbers []),
          float_of_str (nth 1 numbers []),
          float_of_str (nth 2 numbers []) with
    | Some x, Some y, Some z => Some (x, y, z)
    | _, _, _ => None
    end
  else None.

Definition extract_coordinates (text : pystr) : option (float * float * float) :=
  let clean_text := anchor (normalize text) in
  let numbers := findall clean_text in
  first_three numbers.

End Extract.

(* ================================================================== *)
(** * Images *)

Local Open Scope Z_scope.

(** [a[start:stop]] on an axis of length [len]: Python counts a negative
    index from the end and clamps both ends to the axis. *)
Definition slice_index (i len : Z) : Z :=
  if i <? 0 then Z.max (i + len) 0 else Z.min i len.

Definition slice_len (start stop len : Z) : N :=
  Z.to_N (slice_index stop len - slice_index start len).

(** The element type of an array, as far as OpenCV tells depths apart
    here. *)
Inductive dtype := uint8 | uint16 | float32 | other_dtype.

Definition dtype_eqb (a b : dtype) : bool :=
  match a, b with
  | uint8, uint8 | uint16, uint16 | float32, float32
  | other_dtype, other_dtype => true
  | _, _ => false
  end.

(** [ndarray.shape] and [ndarray.dtype] of an image. *)
Record array_shape := {
  nrows : N;
  ncols : N;
  nchannels : N;
  elem : dtype
}.

(** What the tracker uses of numpy and OpenCV.  Pixel values are computed by
    the library and stay abstract: each [_pixels] function is the array an
    OpenCV call computes when it accepts its input, and the laws give its
    shape.  The shape of a crop is numpy's. *)
Class OpenCV (Image : Type) := {
  shape_of : Image -> array_shape;
  crop : Image -> Z -> Z -> Z -> Z -> Image;   (* img[top:bottom, left:right] *)
  gray_pixels : Image -> Image;                (* COLOR_BGR2GRAY *)
  cubic_pixels : Image -> N -> N -> Image;     (* INTER_CUBIC, to rows x cols *)
  median_pixels : Image -> Z -> Image;
  threshold_pixels : Image -> Z -> Z -> Z -> Image;
                                     (* ADAPTIVE_THRESH_GAUSSIAN_C, THRESH_BINARY *)
  not_pixels : Image -> Image;
  shape_crop : forall img t b l r,
    shape_of (crop img t b l r)
    = {| nrows := slice_len t b (Z.of_N (nrows (shape_of img)));
         ncols := slice_len l r (Z.of_N (ncols (shape_of img)));
         nchannels := nchannels (shape_of img);
         elem := elem (shape_of img) |};
  shape_gray : forall img,
    shape_of (gray_pixels img)
    = {| nrows := nrows (shape_of img); ncols := ncols (shape_of img);
         nchannels := 1; elem := elem (shape_of img) |};
  shape_cubic : forall img r c,
    shape_of (cubic_pixels img r c)
    = {| nrows := r; ncols := c;
         nchannels := nchannels (shape_of img); elem := elem (shape_of img) |};
  shape_median : forall img k, shape_of (median_pixels img k) = shape_of img;
  shape_threshold : forall img m b c,
    shape_of (threshold_pixels img m b c) = shape_of img;
  shape_not : forall img, shape_of (not_pixels img) = shape_of img
}.

Section Arrays.

Context {Image : Type} `{CV : OpenCV Image}.

Definition rows (img : Image) : N := nrows (shape_of img).
Definition cols (img : Image) : N := ncols (shape_of img).
Definition channels (img : Image) : N := nchannels (shape_of img).
Definition dtype_of (img : Image) : dtype := elem (shape_of img).

(** [ndarray.size]: the number of elements. *)
Definition size (img : Image) : N :=
  (rows img * cols img * channels img)%N.

(** An 8-bit array with three channels: what [cap.retrieve()] hands out. *)
Definition is_bgr8 (img : Image) : bool :=
  (channels img =? 3)%N && dtype_eqb (dtype_of img) uint8.

(** The depths [cvtColor] and a 3x3 or 5x5 [medianBlur] take. *)
Definition depth_8u_16u_32f (img : Image) : bool :=
  match dtype_of img with
  | uint8 | uint16 | float32 => true
  | other_dtype => false
  end.

(** [cvRound]: to the nearest integer, halves to the even one. *)
Definition round_half_even (x : Q) : Z :=
  let f := Qfloor x in
  match Qcompare (x - inject_Z f) (1 # 2) with
  | Lt => f
  | Gt => f + 1
  | Eq => if Z.even f then f else f + 1
  end.

(** The five OpenCV calls of lines 71-87, [None] being [cv2.error].  The
    conditions are those of the OpenCV documentation: [cvtColor] with
    [COLOR_BGR2GRAY] takes a non-empty 8-bit, 16-bit unsigned or 32-bit
    float image of 3 or 4 channels. *)
Definition cv2_cvtColor_BGR2GRAY (src : Image) : option Image :=
  if (size src =? 0)%N then None
  else if ((channels src =? 3) || (channels src =? 4))%N && depth_8u_16u_32f src
  then Some (gray_pixels src)
  else None.

(** [resize(src, None, fx, fy, INTER_CUBIC)]: the source and the computed
    size [(round(fx*cols), round(fy*rows))] must not be empty. *)
Definition cv2_resize_cubic (src : Image) (fx fy : Q) : option Image :=
  let r := Z.to_N (round_half_even (inject_Z (Z.of_N (rows src)) * fy)%Q) in
  let c := Z.to_N (round_half_even (inject_Z (Z.of_N (cols src)) * fx)%Q) in
  if (size src =? 0)%N || (r =? 0)%N || (c =? 0)%N then None
  else Some (cubic_pixels src r c).

(** [medianBlur]: 1, 3 or 4 channels; [ksize] odd and greater than 1; for
    [ksize] 3 or 5 the depth is 8-bit, 16-bit unsigned or 32-bit float, for
    larger ones 8-bit only. *)
Definition cv2_medianBlur (src : Image) (ksize : Z) : option Image :=
  if (size src =? 0)%N then None
  else if Z.odd ksize && (1 <? ksize)
          && ((channels src =? 1) || (channels src =? 3) || (channels src =? 4))%N
          && (if ksize <=? 5 then depth_8u_16u_32f src
              else dtype_eqb (dtype_of src) uint8)
  then Some (median_pixels src ksize)
  else None.

(** [adaptiveThreshold] with [ADAPTIVE_THRESH_GAUSSIAN_C] and
    [THRESH_BINARY]: an 8-bit single-channel image, [blockSize] odd and
    greater than 1. *)
Definition cv2_adaptiveThreshold (src : Image) (maxValue blockSize C : Z)
    : option Image :=
  if (channels src =? 1)%N && dtype_eqb (dtype_of src) uint8
     && Z.odd blockSize && (1 <? blockSize)
  then Some (threshold_pixels src maxValue blockSize C)
  else None.

(** [bitwise_not] takes every array. *)
Definition cv2_bitwise_not (src : Image) : Image := not_pixels src.

End Arrays.

(** Images reduced to their shape, with OpenCV's output shapes: the instance
    on which statements are evaluated.  [depth] is the number of channels. *)
Module ShapeOnly.
Record shape := { height : N; width : N; depth : N; pixel : dtype }.

Definition shape_of_shape (s : shape) : array_shape :=
  {| nrows := height s; ncols := width s; nchannels := depth s;
     elem := pixel s |}.

Definition crop_shape (s : shape) (t b l r : Z) : shape :=
  {| height := slice_len t b (Z.of_N (height s));
     width := slice_len l r (Z.of_N (width s));
     depth := depth s;
     pixel := pixel s |}.

#[export] Instance shape_cv : OpenCV shape :=
  {| shape_of := shape_of_shape;
     crop := crop_shape;
     gray_pixels := fun s =>
       {| height := height s; width := width s; depth := 1; pixel := pixel s |};
     cubic_pixels := fun s r c =>
       {| height := r; width := c; depth := depth s; pixel := pixel s |};
     median_pixels := fun s _ => s;
     threshold_pixels := fun s _ _ _ => s;
     not_pixels := fun s => s;
     shape_crop := fun _ _ _ _ _ => eq_refl;
     shape_gray := fun _ => eq_refl;
     shape_cubic := fun _ _ _ => eq_refl;
     shape_median := fun _ _ => eq_refl;
     shape_threshold := fun _ _ _ _ => eq_refl;
     shape_not := fun _ => eq_refl |}.
End ShapeOnly.

(* ================================================================== *)
(** * The tracker *)

(** Module-level settings: the four ROI offsets. *)
Record settings := {
  ROI_TOP : Z; ROI_BOTTOM : Z; ROI_LEFT : Z; ROI_RIGHT : Z
}.

(** Lines 18-19. *)
Definition source_settings : settings :=
  {| ROI_TOP := 10; ROI_BOTTOM := 160; ROI_LEFT := 10; ROI_RIGHT := 600 |}.

(** The fields [__init__] sets. *)
Record tracker := {
  camera_index : Z;
  running : bool;
  last_debug_time : Q
}.

Definition init (idx : Z) : tracker :=
  {| camera_index := idx; running := true; last_debug_time := 0%Q |}.

(** [self.last_debug_time = t]. *)
Definition set_last_debug_time (self : tracker) (t : Q) : tracker :=
  {| camera_index := camera_index self;
     running := running self;
     last_debug_time := t |}.

(** [x > y] on times. *)
Definition Qgtb (x y : Q) : bool := negb (Qle_bool x y).

(** Line 151: [max(0.1, 0.5 - elapsed)]. *)
Definition sleep_duration (elapsed : Q) : Q :=
  Qmax (1 # 10) ((1 # 2) - elapsed)%Q.

(** What a run does that can be seen from outside, in order.  [Crop] records
    the offsets line 130 slices with; the clock time that [print] prefixes
    is left out. *)
Inductive event (Image : Type) :=
| PrintTesseractNotFound
| PrintCouldNotOpen
| PrintStarted
| Grab
| Retrieve
| Crop (top bottom left right : Z)
| Imwrite (img : Image)          (* cv2.imwrite("debug_roi.png", img) *)
| Ocr (img : Image)
| PrintSuccess (x y z : float)
| PrintRaw (raw : pystr)
| Sleep (seconds : Q)
| PrintStopping
| Release
| PrintFinished
| CvError.                       (* cv2.error raised in the enhancer, uncaught *)

Arguments PrintTesseractNotFound {Image}.
Arguments PrintCouldNotOpen {Image}.
Arguments PrintStarted {Image}.
Arguments Grab {Image}.
Arguments Retrieve {Image}.
Arguments Crop {Image}.
Arguments Ocr {Image}.
Arguments PrintSuccess {Image}.
Arguments PrintRaw {Image}.
Arguments Sleep {Image}.
Arguments PrintStopping {Image}.
Arguments Release {Image}.
Arguments PrintFinished {Image}.
Arguments CvError {Image}.

(** What a call gives back: a value, or the [cv2.error] it raised. *)
Inductive result (A : Type) :=
| Returned (value : A)
| Raised.

Arguments Returned {A}.
Arguments Raised {A}.

Definition is_imwrite {Image} (e : event Image) : bool :=
  match e with Imwrite _ => true | _ => false end.

(** How many times a run wrote [debug_roi.png], and what the file holds
    after a run that started with [before] in it. *)
Definition imwrite_count {Image} (tr : list (event Image)) : nat :=
  List.length (filter is_imwrite tr).

Definition debug_roi_png {Image} (before : option Image) (tr : list (event Image))
    : option Image :=
  fold_left (fun file e => match e with Imwrite img => Some img | _ => file end)
    tr before.

Fixpoint lstrip (s : pystr) : pystr :=
  match s with
  | c :: r => if is_whitespace c then lstrip r else s
  | [] => []
  end.

(** [s.strip()]. *)
Definition strip (s : pystr) : pystr := rev (lstrip (rev (lstrip s))).

Section Tracker.

Context {Image : Type} `{CV : OpenCV Image}.

(** [pytesseract.image_to_string] with [lang='jpn+eng'] and [--psm 6]. *)
Variable image_to_string : Image -> pystr.
Variable U : UnicodeDb.
Variable cfg : settings.

(** Lines 70-87: the five OpenCV steps, each on the result of the one
    before; [None] when one of them raises. *)
Definition enhance (roi : Image) : option Image :=
  match cv2_cvtColor_BGR2GRAY roi with
  | None => None
  | Some gray =>
      match cv2_resize_cubic gray (5 # 2) (5 # 2) with
      | None => None
      | Some resized =>
          match cv2_medianBlur resized 3 with
          | None => None
          | Some blurred =>
              match cv2_adaptiveThreshold blurred 255 13 2 with
              | None => None
              | Some thresh => Some (cv2_bitwise_not thresh)
              end
          end
      end
  end.

(** Lines 90-93, with [current_time] the value [time.time()] returned. *)
Definition debug_snapshot (self : tracker) (final_img : Image)
    (current_time : Q) : tracker * list (event Image) :=
  if Qgtb (current_time - last_debug_time self)%Q 5 then
    (set_last_debug_time self current_time, [Imwrite final_img])
  else (self, []).

(** [preprocess_image]: [roi] is [None] or an array, [now] is what
    [time.time()] returns when line 90 is reached.  The value is the tracker
    afterwards, what was written, and the returned image; an error of one of
    the five steps leaves the function before anything is written. *)
Definition preprocess_image (self : tracker) (roi : option Image) (now : Q)
    : result (tracker * list (event Image) * option Image) :=
  match roi with
  | None => Returned (self, [], None)
  | Some img =>
      if (size img =? 0)%N then Returned (self, [], None)
      else
        match enhance img with
        | None => Raised
        | Some final_img =>
            let (self', written) := debug_snapshot self final_img now in
            Returned (self', written, Some final_img)
        end
  end.

(* ------------------------------------------------------------------ *)
(** ** [start] *)

(** What the outside world does during one pass of the loop: the result of
    [cap.retrieve()], an 8-bit BGR frame as the capture hands them out, the
    time from line 119 to line 90, and the time from there to line 150. *)
Record cycle := {
  ret : bool;
  frame : Image;
  frame_bgr : is_bgr8 frame = true;
  capture_time : Q;
  ocr_time : Q
}.

Record environment := {
  tesseract_exists : bool;    (* os.path.exists(TESSERACT_PATH) *)
  cap_opened : bool;          (* cap.isOpened() *)
  clock0 : Q;                 (* time.time() when the loop is entered *)
  script : list cycle         (* the passes before Ctrl+C *)
}.

(** Lines 140-147. *)
Definition report (text : pystr) : list (event Image) :=
  match extract_coordinates U text with
  | Some (x, y, z) => [PrintSuccess x y z]
  | None =>
      let raw := replace Ch.newline [Ch.space] (strip text) in
      match raw with
      | [] => []
      | _ :: _ => [PrintRaw (firstn 40 raw)]
      end
  end.

(** Lines 130-147: the tracker afterwards, the events, and whether the pass
    came to its end ([false] when the enhancer raised). *)
Definition process (self : tracker) (f : Image) (now : Q)
    : tracker * list (event Image) * bool :=
  let roi := crop f (ROI_TOP cfg) (ROI_BOTTOM cfg) (ROI_LEFT cfg) (ROI_RIGHT cfg) in
  let cropped := Crop (ROI_TOP cfg) (ROI_BOTTOM cfg) (ROI_LEFT cfg) (ROI_RIGHT cfg) in
  match preprocess_image self (Some roi) now with
  | Raised => (self, [cropped; CvError], false)
  | Returned (self', written, Some img) =>
      (self', cropped :: written ++ Ocr img :: report (image_to_string img), true)
  | Returned (self', written, None) => (self', cropped :: written, true)
  end.

(** Line 150, as the code computes it from two clock readings. *)
Definition elapsed_time (start_time : Q) (c : cycle) : Q :=
  (start_time + capture_time c + ocr_time c - start_time)%Q.

(** The clock when the pass after [c] begins: the end of [c]'s sleep. *)
Definition next_start (start_time : Q) (c : cycle) : Q :=
  (start_time + capture_time c + ocr_time c
   + sleep_duration (elapsed_time start_time c))%Q.

(** Lines 118-151.  The end of the script is the operator's Ctrl+C, taken
    between two passes; an error of the enhancer is not caught and leaves the
    loop where it is raised. *)
Fixpoint loop (self : tracker) (clock : Q) (sc : list cycle)
    : tracker * list (event Image) :=
  if negb (running self) then (self, []) else
  match sc with
  | [] => (self, [PrintStopping])
  | c :: rest =>
      let start_time := clock in
      let grabs := [Grab; Grab; Grab; Grab; Grab; Retrieve] in
      if negb (ret c) then (self, grabs)
      else
        let now := (start_time + capture_time c)%Q in
        let '(self1, evs, completed) := process self (frame c) now in
        if negb completed then (self1, grabs ++ evs)
        else
          let pause := sleep_duration (elapsed_time start_time c) in
          let (self2, tr) := loop self1 (next_start start_time c) rest in
          (self2, grabs ++ evs ++ Sleep pause :: tr)
  end.

(** [start]; the [finally] clause runs however the loop was left. *)
Definition start (self : tracker) (env : environment)
    : tracker * list (event Image) :=
  if negb (tesseract_exists env) then (self, [PrintTesseractNotFound])
  else if negb (cap_opened env) then (self, [PrintCouldNotOpen])
  else
    let (self', tr) := loop self (clock0 env) (script env) in
    (self', PrintStarted :: tr ++ [Release; PrintFinished]).

End Tracker.

Arguments cycle Image {CV}.
Arguments environment Image {CV}.

(* ================================================================== *)
(** * Properties of the text pipeline *)

(** The binary64 number [m * 2^e], for writing expected results. *)
Definition b64 (m e : Z) : float := binary_normalize prec emax m e false.

(** The strings [\d+\.?\d*] can match. *)
Definition unsigned_token (U : UnicodeDb) (tok : pystr) : Prop :=
  exists ds fs,
    ds <> [] /\ forallb (is_digit U) ds = true /\ forallb (is_digit U) fs = true
    /\ (tok = ds \/ tok = ds ++ Ch.dot :: fs).

(** The strings the whole pattern can match. *)
Definition number_token (U : UnicodeDb) (tok : pystr) : Prop :=
  unsigned_token U tok
  \/ exists c t, is_sign c = true /\ tok = c :: t /\ unsigned_token U t.

(** Two digit tables give the characters of [s] the same value. *)
Definition agree_on (U V : UnicodeDb) (s : pystr) : Prop :=
  forall c, In c s -> to_decimal U c = to_decimal V c.

(** The five character-confusion substitutions of line 45 on one
    character. *)
Definition confusion_char (c : char) : pystr :=
  if (c =? Ch.fw_colon)%N then [Ch.colon]
  else if (c =? Ch.semicolon)%N then [Ch.colon]
  else if (c =? Ch.bar)%N then []
  else if (c =? Ch.letter_I)%N then [Ch.one]
  else if (c =? Ch.letter_O)%N then [Ch.zero]
  else [c].

(** What line 45 does to one character. *)
Definition norm_char (c : char) : pystr :=
  if (c =? Ch.space)%N then []
  else if (c =? Ch.fw_colon)%N then [Ch.colon]
  else if (c =? Ch.semicolon)%N then [Ch.colon]
  else if (c =? Ch.bar)%N then []
  else if (c =? Ch.letter_I)%N then [Ch.one]
  else if (c =? Ch.letter_O)%N then [Ch.zero]
  else [c].

(** The bounds invariant of the ROI for a frame of the given shape. *)
Definition roi_valid (cfg : settings) (frame_height frame_width : Z) : bool :=
  (0 <=? ROI_TOP cfg) && (ROI_TOP cfg <? ROI_BOTTOM cfg)
  && (ROI_BOTTOM cfg <=? frame_height)
  && (0 <=? ROI_LEFT cfg) && (ROI_LEFT cfg <? ROI_RIGHT cfg)
  && (ROI_RIGHT cfg <=? frame_width).

(** Whether a run got past the two startup checks of [start]. *)
Definition started {Image} (tr : list (event Image)) : bool :=
  match tr with PrintStarted :: _ => true | _ => false end.

(** Whitespace other than the space character U+0020. *)
Definition other_whitespace (c : char) : bool :=
  is_whitespace c && negb (c =? Ch.space)%N.

(** ** Concrete inputs *)

Module Sample.
Import ShapeOnly.

(** A 1280x720 colour frame, the crop lines 18-19 take from it, and what the
    enhancer makes of that crop. *)
Definition frame720 : shape :=
  {| height := 720; width := 1280; depth := 3; pixel := uint8 |}.
Definition roi0 : shape :=
  {| height := 150; width := 590; depth := 3; pixel := uint8 |}.
Definition enhanced0 : shape :=
  {| height := 375; width := 1475; depth := 1; pixel := uint8 |}.

(** An OCR engine that reads nothing. *)
Definition reads_nothing (img : shape) : pystr := [].

(** Offsets with the top below the bottom. *)
Definition upside_down : settings :=
  {| ROI_TOP := 160; ROI_BOTTOM := 10; ROI_LEFT := 10; ROI_RIGHT := 600 |}.

Definition pass (capture ocr : Q) : cycle shape :=
  {| ret := true; frame := frame720; frame_bgr := eq_refl;
     capture_time := capture; ocr_time := ocr |}.

(** A two-channel array, which [cvtColor] does not take. *)
Definition two_channels : shape :=
  {| height := 150; width := 590; depth := 2; pixel := uint8 |}.

Definition healthy (sc : list (cycle shape)) : environment shape :=
  {| tesseract_exists := true; cap_opened := true; clock0 := 1000; script := sc |}.

End Sample.

Import ShapeOnly Sample.

(* ================================================================== *)
(** * Camera probing and the entry point *)

(** Line 14. *)
Definition TARGET_CAMERA_NAME : pystr := utf8 "Logi C270 HD WebCam".

(** What [find_camera_index] does that can be seen from outside. *)
Inductive probe :=
| PrintSearching (name : pystr)
| OpenCapture (index : Z)        (* cv2.VideoCapture(index, cv2.CAP_DSHOW) *)
| ReleaseCapture (index : Z).    (* cap.release() on that capture *)

(** Lines 26-31, over the indices still to try; [opens i] is what
    [cap.isOpened()] answers for index [i]. *)
Fixpoint probe_cameras (opens : Z -> bool) (indices : list Z) : Z * list probe :=
  match indices with
  | [] => (0, [])
  | i :: rest =>
      if opens i then (i, [OpenCapture i; ReleaseCapture i])
      else let (found, evs) := probe_cameras opens rest in
           (found, OpenCapture i :: evs)
  end.

(** [range(5)]. *)
Definition range5 : list Z := [0; 1; 2; 3; 4].

(** [find_camera_index]. *)
Definition find_camera_index (opens : Z -> bool) (target_name : pystr)
    : Z * list probe :=
  let (found, evs) := probe_cameras opens range5 in
  (found, PrintSearching target_name :: evs).

(** Lines 159-162. *)
Definition main {Image} `{OpenCV Image} (image_to_string : Image -> pystr)
    (U : UnicodeDb) (cfg : settings) (opens : Z -> bool)
    (env : environment Image) : list probe * tracker * list (event Image) :=
  let (idx, probes) := find_camera_index opens TARGET_CAMERA_NAME in
  let tracker := init idx in
  let (self', tr) := start image_to_string U cfg tracker env in
  (probes, self', tr).

(* ================================================================== *)
(** * Further vocabulary *)

Definition comma : char := 44%N.   (* ',' *)

(** [sep.join(toks)] for a one-character [sep]. *)
Fixpoint join (sep : char) (toks : list pystr) : pystr :=
  match toks with
  | [] => []
  | t :: rest =>
      match rest with
      | [] => t
      | _ :: _ => t ++ sep :: join sep rest
      end
  end.

(** The format the docstring of [extract_coordinates] names,
    ["<label>: X, Y, Z"]. *)
Definition readout (label x y z : pystr) : pystr :=
  label ++ utf8 ": " ++ x ++ utf8 ", " ++ y ++ utf8 ", " ++ z.

(** Nothing, or a character the pattern cannot continue a number with. *)
Definition boundary (U : UnicodeDb) (rest : pystr) : Prop :=
  match rest with
  | [] => True
  | c :: _ => is_digit U c = false /\ c <> Ch.dot
  end.

(** The characters a match of the pattern is made of. *)
Definition token_char (U : UnicodeDb) (ch : char) : Prop :=
  is_digit U ch = true \/ is_sign ch = true \/ ch = Ch.dot.

(** The characters line 45 turns into [":"], and [":"] itself. *)
Definition colon_like (c : char) : bool :=
  ((c =? Ch.colon) || (c =? Ch.fw_colon) || (c =? Ch.semicolon))%N.

(** A side of [n] pixels after the 2.5-fold resize of line 74. *)
Definition scaled (n : N) : N :=
  Z.to_N (round_half_even (inject_Z (Z.of_N n) * (5 # 2))%Q).

Definition is_crop {Image} (e : event Image) : bool :=
  match e with Crop _ _ _ _ => true | _ => false end.

(** The events of the debug write, of OCR and of the report. *)
Definition reads_or_writes {Image} (e : event Image) : bool :=
  match e with
  | Imwrite _ | Ocr _ | PrintSuccess _ _ _ | PrintRaw _ => true
  | _ => false
  end.

(** The passes of a script that retrieve a frame: those before the first
    whose retrieve fails. *)
Fixpoint frames_retrieved {Image} `{OpenCV Image} (sc : list (cycle Image)) : nat :=
  match sc with
  | [] => 0%nat
  | c :: rest => if ret c then S (frames_retrieved rest) else 0%nat
  end.

(** A retrieve, or a crop. *)
Definition retrieve_or_crop {Image} (e : event Image) : bool :=
  match e with Retrieve | Crop _ _ _ _ => true | _ => false end.

(** The retrieves and crops of a run that slices every frame it retrieves
    with the offsets of the settings, before it retrieves the next, and ends
    at a retrieve that gives no frame. *)
Fixpoint sliced_frames {Image} `{OpenCV Image} (cfg : settings)
    (sc : list (cycle Image)) : list (event Image) :=
  match sc with
  | [] => []
  | c :: rest =>
      if ret c
      then Retrieve
             :: Crop (ROI_TOP cfg) (ROI_BOTTOM cfg) (ROI_LEFT cfg) (ROI_RIGHT cfg)
             :: sliced_frames cfg rest
      else [Retrieve]
  end.

(** The debug writes of [preprocess_image] alone over a run: it is called
    once for each retrieved frame, on the crop of that frame, at the clock
    of line 90 and with the tracker its last call left. *)
Fixpoint enhancer_writes {Image} `{OpenCV Image} (cfg : settings)
    (self : tracker) (clock : Q) (sc : list (cycle Image))
    : list (event Image) :=
  match sc with
  | [] => []
  | c :: rest =>
      if negb (running self) || negb (ret c) then []
      else
        match preprocess_image self
                (Some (crop (frame c) (ROI_TOP cfg) (ROI_BOTTOM cfg)
                         (ROI_LEFT cfg) (ROI_RIGHT cfg)))
                (clock + capture_time c)%Q with
        | Returned (self1, written, _) =>
            written ++ enhancer_writes cfg self1 (next_start clock c) rest
        | Raised => []
        end
  end.

(** In a list of events, each [imwrite] is followed at once by the OCR call
    on the image written. *)
Definition writes_then_ocr {Image} (tr : list (event Image)) : Prop :=
  forall pre img post,
    tr = pre ++ Imwrite img :: post -> exists post', post = Ocr img :: post'.

Definition is_release {Image} (e : event Image) : bool :=
  match e with Release => true | _ => false end.

Definition is_ocr {Image} (e : event Image) : bool :=
  match e with Ocr _ => true | _ => false end.

Definition is_sleep {Image} (e : event Image) : bool :=
  match e with Sleep _ => true | _ => false end.

(** The sleeps of a run last between [lo] and [hi]. *)
Definition sleeps_within {Image} (lo hi : Q) (e : event Image) : Prop :=
  match e with
  | Sleep d => (lo <= d)%Q /\ (d <= hi)%Q
  | _ => True
  end.

(** Events lines 130-147 can produce. *)
Definition pass_event {Image} (e : event Image) : bool :=
  match e with
  | Crop _ _ _ _ | Imwrite _ | Ocr _ | PrintSuccess _ _ _ | PrintRaw _
  | CvError => true
  | _ => false
  end.

(** The six device calls that open a pass. *)
Definition grabs {Image} : list (event Image) :=
  [Grab; Grab; Grab; Grab; Grab; Retrieve].

(** Events a pass of the loop can produce. *)
Definition loop_event {Image} (e : event Image) : bool :=
  match e with
  | PrintTesseractNotFound | PrintCouldNotOpen | PrintStarted
  | Release | PrintFinished => false
  | _ => true
  end.

Section SpanFacts.

Variable p : char -> bool.

Lemma span_app_eq s : fst (span p s) ++ snd (span p s) = s.
Proof.
  induction s as [|c r IH]; simpl; [reflexivity|].
  destruct (p c); [|reflexivity].
  destruct (span p r) as [a b]; simpl in *. now rewrite IH.
Qed.

Lemma span_fst_all s : forallb p (fst (span p s)) = true.
Proof.
  induction s as [|c r IH]; simpl; [reflexivity|].
  destruct (p c) eqn:E; [|reflexivity].
  destruct (span p r) as [a b]; simpl in *. now rewrite E, IH.
Qed.

Lemma span_snd_head s c r : snd (span p s) = c :: r -> p c = false.
Proof.
  induction s as [|d t IH]; simpl; [discriminate|].
  destruct (p d) eqn:E.
  - destruct (span p t) as [a b]; simpl in *. exact IH.
  - simpl. intros H; injection H as -> _. exact E.
Qed.

(** A run of [p]-characters followed by the end or by a character that is
    not one is exactly what [span] splits off. *)
Lemma span_run a b :
  forallb p a = true ->
  match b with [] => True | c :: _ => p c = false end ->
  span p (a ++ b) = (a, b).
Proof.
  intros Ha Hb. induction a as [|x a IH]; simpl.
  - destruct b as [|c r]; simpl; [reflexivity|]. now rewrite Hb.
  - simpl in Ha. apply andb_true_iff in Ha as [Hx Ha].
    rewrite Hx, (IH Ha). reflexivity.
Qed.

Lemma span_all a : forallb p a = true -> span p a = (a, []).
Proof.
  intros Ha. rewrite <- (app_nil_r a) at 1. now apply span_run.
Qed.

End SpanFacts.

Section TokenFacts.

Variable U : UnicodeDb.

Local Abbreviation unsigned_token := (unsigned_token U).
Local Abbreviation number_token := (number_token U).

Lemma dot_not_digit : is_digit U Ch.dot = false.
Proof. unfold is_digit. now rewrite to_decimal_ascii. Qed.

Lemma sign_not_digit c : is_sign c = true -> is_digit U c = false.
Proof.
  unfold is_sign, is_digit. intros H.
  apply orb_true_iff in H as [H|H]; apply N.eqb_eq in H; subst c;
    now rewrite to_decimal_ascii.
Qed.

Lemma match_unsigned_shape s tok rest :
  match_unsigned U s = Some (tok, rest) -> s = tok ++ rest /\ unsigned_token tok.
Proof.
  unfold match_unsigned.
  pose proof (span_app_eq (is_digit U) s) as Hs.
  pose proof (span_fst_all (is_digit U) s) as Hd.
  destruct (span (is_digit U) s) as [ds s1]; simpl in Hs, Hd.
  destruct ds as [|d ds]; [discriminate|].
  destruct s1 as [|c s2].
  - intros H; injection H as <- <-. split; [now rewrite Hs|].
    exists (d :: ds), []. repeat split; auto. discriminate.
  - destruct (N.eqb_spec c Ch.dot) as [->|Hc].
    + pose proof (span_app_eq (is_digit U) s2) as Hs2.
      pose proof (span_fst_all (is_digit U) s2) as Hd2.
      destruct (span (is_digit U) s2) as [fs s3]; simpl in Hs2, Hd2.
      intros H; injection H as <- <-. split.
      * rewrite <- Hs, <- Hs2. simpl. now rewrite <- app_assoc.
      * exists (d :: ds), fs. repeat split; auto. discriminate.
    + intros H; injection H as <- <-. split; [now rewrite Hs|].
      exists (d :: ds), []. repeat split; auto. discriminate.
Qed.

Lemma match_number_shape s tok rest :
  match_number U s = Some (tok, rest) -> s = tok ++ rest /\ number_token tok.
Proof.
  unfold match_number. destruct s as [|c r]; [discriminate|].
  destruct (is_sign c) eqn:Hc.
  - destruct (match_unsigned U r) as [[t rest']|] eqn:Hr.
    + intros H; injection H as <- <-.
      apply match_unsigned_shape in Hr as [-> Ht]. split; [reflexivity|].
      right. now exists c, t.
    + intros H. apply match_unsigned_shape in H as [-> Ht]. split; auto.
      now left.
  - intros H. apply match_unsigned_shape in H as [-> Ht]. split; auto.
    now left.
Qed.

(** Every match [findall] reports is a substring of the text and has the
    shape of the pattern. *)
Local Arguments match_number : simpl never.

Lemma findall_aux_tokens s : forall k tok,
  In tok (findall_aux U k s) ->
  number_token tok /\ exists pre post, s = pre ++ tok ++ post.
Proof.
  induction s as [|c r IH]; intros k tok; simpl; [tauto|].
  destruct k as [|k].
  - destruct (match_number U (c :: r)) as [[t rest]|] eqn:Hm.
    + simpl. intros [<-|Hin].
      * apply match_number_shape in Hm as [Hs Ht]. split; [exact Ht|].
        exists [], rest. exact Hs.
      * destruct (IH _ _ Hin) as [Ht (pre & post & ->)]. split; [exact Ht|].
        now exists (c :: pre), post.
    + intros Hin. destruct (IH _ _ Hin) as [Ht (pre & post & ->)].
      split; [exact Ht|]. now exists (c :: pre), post.
  - intros Hin. destruct (IH _ _ Hin) as [Ht (pre & post & ->)].
    split; [exact Ht|]. now exists (c :: pre), post.
Qed.

Lemma unsigned_token_head t :
  unsigned_token t -> exists d r, t = d :: r /\ is_digit U d = true.
Proof.
  intros (ds & fs & Hne & Hd & _ & Ht).
  destruct ds as [|d ds]; [congruence|].
  simpl in Hd. apply andb_true_iff in Hd as [Hd _].
  destruct Ht as [->| ->]; simpl; do 2 eexists; split; try reflexivity; exact Hd.
Qed.

Lemma float_unsigned_token neg t :
  unsigned_token t -> exists x, float_unsigned U neg t = Some x.
Proof.
  intros (ds & fs & Hne & Hd & Hf & Ht). unfold float_unsigned.
  destruct ds as [|d ds]; [congruence|].
  destruct Ht as [->| ->].
  - rewrite (span_all _ _ Hd). simpl. eauto.
  - rewrite (span_run _ _ (Ch.dot :: fs) Hd dot_not_digit).
    rewrite N.eqb_refl, (span_all _ _ Hf). simpl. eauto.
Qed.

(** [float] accepts every string of the pattern's shape: the [ValueError]
    of line 58 cannot come from a match. *)
Lemma float_of_number_token tok :
  number_token tok -> exists x, float_of_str U tok = Some x.
Proof.
  intros [Ht|(c & t & Hc & -> & Ht)].
  - destruct (unsigned_token_head Ht) as (d & r & -> & Hd). simpl.
    destruct (is_sign d) eqn:Hs.
    + apply sign_not_digit in Hs. congruence.
    + now apply float_unsigned_token.
  - simpl. rewrite Hc. now apply float_unsigned_token.
Qed.

Lemma number_token_has_digit tok :
  number_token tok -> exists d, In d tok /\ is_digit U d = true.
Proof.
  intros [Ht|(c & t & _ & -> & Ht)];
    destruct (unsigned_token_head Ht) as (d & r & -> & Hd);
    exists d; simpl; auto.
Qed.

(** What [float] is asked to handle beyond the pattern: it does reject a
    lone point and a lone sign. *)
Lemma float_of_str_rejects :
  float_of_str U [Ch.dot] = None /\ float_of_str U [Ch.plus] = None
  /\ float_of_str U [Ch.minus] = None /\ float_of_str U [] = None.
Proof.
  unfold float_of_str, float_unsigned. simpl.
  rewrite dot_not_digit. simpl. auto.
Qed.

End TokenFacts.

(** ** Two digit tables that agree on a text give the same result *)

Section Agreement.

Variables U V : UnicodeDb.

Local Abbreviation agree_on := (agree_on U V).

Lemma agree_on_app a b : agree_on (a ++ b) -> agree_on a /\ agree_on b.
Proof. unfold agree_on. split; intros c Hc; apply H, in_or_app; auto. Qed.

Lemma agree_on_tail c s : agree_on (c :: s) -> agree_on s.
Proof. intros H d Hd. apply H. now right. Qed.

Lemma span_agree s :
  agree_on s -> span (is_digit U) s = span (is_digit V) s.
Proof.
  induction s as [|c r IH]; intros H; simpl; [reflexivity|].
  unfold is_digit at 1 3. rewrite (H c (or_introl eq_refl)).
  rewrite (IH (agree_on_tail H)). reflexivity.
Qed.

Lemma match_unsigned_agree s :
  agree_on s -> match_unsigned U s = match_unsigned V s.
Proof.
  intros H. unfold match_unsigned. rewrite <- (span_agree H).
  pose proof (span_app_eq (is_digit U) s) as Hs.
  destruct (span (is_digit U) s) as [ds s1]; simpl in Hs.
  destruct ds as [|d ds]; [reflexivity|].
  destruct s1 as [|c s2]; [reflexivity|].
  destruct (c =? Ch.dot)%N; [|reflexivity].
  rewrite <- Hs in H. apply agree_on_app in H as [_ H].
  now rewrite (span_agree (agree_on_tail H)).
Qed.

Lemma match_number_agree s :
  agree_on s -> match_number U s = match_number V s.
Proof.
  intros H. unfold match_number. destruct s as [|c r]; [reflexivity|].
  rewrite (match_unsigned_agree H), (match_unsigned_agree (agree_on_tail H)).
  reflexivity.
Qed.

Lemma findall_aux_agree s : forall k,
  agree_on s -> findall_aux U k s = findall_aux V k s.
Proof.
  induction s as [|c r IH]; intros k H; [reflexivity|].
  cbn [findall_aux]. rewrite (match_number_agree H).
  destruct k; [|now apply IH, (agree_on_tail H)].
  destruct (match_number V (c :: r)) as [[t rest]|];
    now rewrite (IH _ (agree_on_tail H)).
Qed.

Lemma digits_value_agree s :
  agree_on s -> digits_value U s = digits_value V s.
Proof.
  intros H. unfold digits_value.
  set (fU := fun acc c => (acc * 10 + match to_decimal U c with Some d => d | None => 0 end)%N).
  set (fV := fun acc c => (acc * 10 + match to_decimal V c with Some d => d | None => 0 end)%N).
  assert (G : forall acc, fold_left fU s acc = fold_left fV s acc);
    [|apply G].
  induction s as [|c r IH]; intros acc; simpl; [reflexivity|].
  rewrite (IH (agree_on_tail H)). unfold fU, fV.
  now rewrite (H c (or_introl eq_refl)).
Qed.

Lemma float_unsigned_agree neg s :
  agree_on s -> float_unsigned U neg s = float_unsigned V neg s.
Proof.
  intros H. unfold float_unsigned. rewrite <- (span_agree H).
  pose proof (span_app_eq (is_digit U) s) as Hs.
  destruct (span (is_digit U) s) as [ip s1]; simpl in Hs.
  rewrite <- Hs in H. apply agree_on_app in H as [Hip H1].
  assert (Hfp : forall (fp s2 : pystr), agree_on fp ->
    match ip ++ fp, s2 with
    | _ :: _, [] => Some (float_of_decimal neg (digits_value U (ip ++ fp)) (length fp))
    | _, _ => None
    end =
    match ip ++ fp, s2 with
    | _ :: _, [] => Some (float_of_decimal neg (digits_value V (ip ++ fp)) (length fp))
    | _, _ => None
    end).
  { intros fp s2 Hfp. rewrite digits_value_agree; [reflexivity|].
    intros c Hc. apply in_app_or in Hc as [Hc|Hc]; auto. }
  assert (Hnil : agree_on []) by (intros ? []).
  destruct s1 as [|c r]; [exact (Hfp [] [] Hnil)|].
  destruct (c =? Ch.dot)%N; [|exact (Hfp [] (c :: r) Hnil)].
  rewrite <- (span_agree (agree_on_tail H1)).
  pose proof (span_app_eq (is_digit U) r) as Hr.
  destruct (span (is_digit U) r) as [fp s2]; simpl in Hr.
  apply (Hfp fp s2). apply agree_on_tail in H1. rewrite <- Hr in H1.
  now apply agree_on_app in H1.
Qed.

Lemma float_of_str_agree s :
  agree_on s -> float_of_str U s = float_of_str V s.
Proof.
  intros H. unfold float_of_str. destruct s as [|c r]; [reflexivity|].
  rewrite (float_unsigned_agree _ H), (float_unsigned_agree _ (agree_on_tail H)).
  reflexivity.
Qed.

Lemma float_nth_agree s i :
  agree_on s ->
  float_of_str U (nth i (findall V s) []) = float_of_str V (nth i (findall V s) []).
Proof.
  intros H. destruct (nth_in_or_default i (findall V s) []) as [Hin| ->];
    [|reflexivity].
  apply findall_aux_tokens in Hin as [_ (pre & post & Hs)].
  apply float_of_str_agree. rewrite Hs in H.
  apply agree_on_app in H as [_ H]. now apply agree_on_app in H.
Qed.

Lemma extract_coordinates_agree text :
  agree_on (anchor (normalize text)) ->
  extract_coordinates U text = extract_coordinates V text.
Proof.
  intros H. unfold extract_coordinates, first_three, findall.
  rewrite (findall_aux_agree 0 H).
  fold (findall V (anchor (normalize text))).
  now rewrite !(float_nth_agree _ H).
Qed.

End Agreement.

(** On a text whose cleaned, anchored form is ASCII the result does not
    depend on the interpreter's digit table. *)
Lemma extract_coordinates_ascii (U : UnicodeDb) text :
  forallb (fun c => c <? 128)%N (anchor (normalize text)) = true ->
  extract_coordinates U text = extract_coordinates ascii_db text.
Proof.
  intros H. apply extract_coordinates_agree. intros c Hc.
  rewrite forallb_forall in H. specialize (H c Hc). apply N.ltb_lt in H.
  now rewrite !to_decimal_ascii.
Qed.

(** ** [split] and the last colon *)

Lemma split_without sep s : ~ In sep s -> split sep s = [s].
Proof.
  induction s as [|c r IH]; intros H; simpl; [reflexivity|].
  destruct (N.eqb_spec c sep) as [->|Hc]; [exfalso; apply H; now left|].
  rewrite IH; [reflexivity|]. intros Hin. apply H. now right.
Qed.

(** With a separator in the text, the last segment is what follows the last
    separator. *)
Lemma split_with sep s :
  In sep s ->
  exists seg segs pre suf,
    split sep s = seg :: segs ++ [suf] /\ s = pre ++ sep :: suf /\ ~ In sep suf.
Proof.
  induction s as [|c r IH]; intros H; [destruct H|]. simpl.
  destruct (N.eqb_spec c sep) as [->|Hc].
  - destruct (in_dec N.eq_dec sep r) as [Hin|Hout].
    + destruct (IH Hin) as (seg & segs & pre & suf & Hsp & -> & Hsuf).
      exists [], (seg :: segs), (sep :: pre), suf. rewrite Hsp. auto.
    + exists [], [], [], r. rewrite (@split_without _ _ Hout). auto.
  - destruct H as [H|H]; [congruence|].
    destruct (IH H) as (seg & segs & pre & suf & Hsp & -> & Hsuf).
    exists (c :: seg), segs, (c :: pre), suf. rewrite Hsp. auto.
Qed.

Lemma contains_In sep s : contains sep s = true <-> In sep s.
Proof.
  unfold contains. rewrite existsb_exists. split.
  - intros (c & Hc & E). apply N.eqb_eq in E. now subst.
  - intros H. exists sep. split; [exact H|apply N.eqb_refl].
Qed.

Lemma anchor_spec s :
  In Ch.colon s ->
  exists pre suf, s = pre ++ Ch.colon :: suf /\ ~ In Ch.colon suf /\ anchor s = suf.
Proof.
  intros H. unfold anchor. rewrite (proj2 (@contains_In _ _) H).
  destruct (@split_with _ _ H) as (seg & segs & pre & suf & Hsp & Hs & Hsuf).
  exists pre, suf. repeat split; auto.
  rewrite Hsp, app_comm_cons. apply last_last.
Qed.

Lemma anchor_without s : ~ In Ch.colon s -> anchor s = s.
Proof.
  intros H. unfold anchor. destruct (contains Ch.colon s) eqn:E; [|reflexivity].
  apply contains_In in E. contradiction.
Qed.

(** ** The substitutions as one pass *)

Lemma replace_app old new a b :
  replace old new (a ++ b) = replace old new a ++ replace old new b.
Proof. apply flat_map_app. Qed.

Lemma normalize_app a b : normalize (a ++ b) = normalize a ++ normalize b.
Proof. unfold normalize. now rewrite !replace_app. Qed.

Lemma normalize_one c : normalize [c] = norm_char c.
Proof.
  unfold normalize, norm_char, replace. simpl.
  destruct (N.eqb_spec c Ch.space) as [->|H1]; [reflexivity|]. simpl.
  destruct (N.eqb_spec c Ch.fw_colon) as [->|H2]; [reflexivity|]. simpl.
  destruct (N.eqb_spec c Ch.semicolon) as [->|H3]; [reflexivity|]. simpl.
  destruct (N.eqb_spec c Ch.bar) as [->|H4]; [reflexivity|]. simpl.
  destruct (N.eqb_spec c Ch.letter_I) as [->|H5]; [reflexivity|]. simpl.
  destruct (N.eqb_spec c Ch.letter_O) as [->|H6]; [reflexivity|]. simpl.
  reflexivity.
Qed.

Lemma normalize_flat_map text : normalize text = flat_map norm_char text.
Proof.
  induction text as [|c r IH]; [reflexivity|].
  change (c :: r) with ([c] ++ r).
  now rewrite normalize_app, normalize_one, IH.
Qed.

(** ** The claims about [extract_coordinates] *)

(** The literal of the second example, code point by code point: U+5EA7,
    U+6A19, then ASCII. *)
Lemma utf8_label :
  utf8 "座標: 12.5" = [24231; 27161; 58; 32; 49; 50; 46; 53]%N
  /\ utf8 "：" = [Ch.fw_colon].
Proof. split; reflexivity. Qed.

Lemma first_three_tokens (U : UnicodeDb) (numbers : list pystr) :
  Forall (number_token U) numbers ->
  match numbers with
  | a :: b :: c :: _ =>
      exists x y z,
        float_of_str U a = Some x /\ float_of_str U b = Some y
        /\ float_of_str U c = Some z /\ first_three U numbers = Some (x, y, z)
  | _ => first_three U numbers = None
  end.
Proof.
  intros H. destruct numbers as [|a [|b [|c rest]]]; try reflexivity.
  inversion_clear H as [|? ? Ha H1]. inversion_clear H1 as [|? ? Hb H2].
  inversion_clear H2 as [|? ? Hc _].
  destruct (float_of_number_token Ha) as [x Hx].
  destruct (float_of_number_token Hb) as [y Hy].
  destruct (float_of_number_token Hc) as [z Hz].
  exists x, y, z. unfold first_three. simpl. now rewrite Hx, Hy, Hz.
Qed.

Lemma findall_tokens (U : UnicodeDb) s : Forall (number_token U) (findall U s).
Proof.
  apply Forall_forall. intros tok H. now apply findall_aux_tokens in H.
Qed.

(** C1.  With fewer than three matches of the numeric pattern in the
    cleaned, anchored text the result is [None]; with three or more it is
    the first three matches, in order, each converted by [float], whatever
    follows them.  So ["1, 2"] gives [None] and ["1,2,3,4"] gives
    (1.0, 2.0, 3.0). *)
Theorem extract_coordinates_first_three (U : UnicodeDb) (text : pystr) :
  match findall U (anchor (normalize text)) with
  | a :: b :: c :: _ =>
      exists x y z,
        float_of_str U a = Some x /\ float_of_str U b = Some y
        /\ float_of_str U c = Some z
        /\ extract_coordinates U text = Some (x, y, z)
  | _ => extract_coordinates U text = None
  end
  /\ extract_coordinates U (utf8 "1, 2") = None
  /\ extract_coordinates U (utf8 "1,2,3,4") = Some (b64 1 0, b64 2 0, b64 3 0).
Proof.
  split; [|split].
  - exact (first_three_tokens (findall_tokens U (anchor (normalize text)))).
  - rewrite extract_coordinates_ascii; reflexivity.
  - rewrite extract_coordinates_ascii; reflexivity.
Qed.

(** C2.  When the cleaned text has a colon, it splits as [pre ++ ":" ++ suf]
    with no colon in [suf], and the result is computed from the matches in
    [suf] alone.  ["座標: 12.5, -3.0, 100.0"] gives (12.5, -3.0, 100.0). *)
Theorem extract_coordinates_after_last_colon (U : UnicodeDb) (text : pystr) :
  In Ch.colon (normalize text) ->
  (exists pre suf,
      normalize text = pre ++ Ch.colon :: suf
      /\ ~ In Ch.colon suf
      /\ anchor (normalize text) = suf
      /\ extract_coordinates U text = first_three U (findall U suf))
  /\ extract_coordinates U (utf8 "座標: 12.5, -3.0, 100.0")
     = Some (b64 25 (-1), b64 (-3) 0, b64 100 0).
Proof.
  intros H. split.
  - destruct (@anchor_spec _ H) as (pre & suf & Hs & Hsuf & Ha).
    exists pre, suf. repeat split; auto.
    unfold extract_coordinates. now rewrite Ha.
  - rewrite extract_coordinates_ascii; reflexivity.
Qed.

Lemma extract_coordinates_after_last_colon_witness :
  let text := utf8 "X;7:Y:1,2,3" in
  In Ch.colon (normalize text)
  /\ exists pre suf,
       normalize text = pre ++ Ch.colon :: suf
       /\ ~ In Ch.colon suf
       /\ anchor (normalize text) = suf
       /\ extract_coordinates ascii_db text
          = first_three ascii_db (findall ascii_db suf).
Proof.
  intros text.
  assert (H : In Ch.colon (normalize text)) by (vm_compute; tauto).
  split; [exact H|].
  exact (proj1 (@extract_coordinates_after_last_colon ascii_db text H)).
Defined.

Lemma norm_char_confusion c :
  norm_char c = flat_map confusion_char (if (c =? Ch.space)%N then [] else [c]).
Proof.
  unfold norm_char. destruct (N.eqb_spec c Ch.space) as [->|H]; [reflexivity|].
  simpl. now rewrite app_nil_r.
Qed.

Lemma normalize_confusion text :
  normalize text = flat_map confusion_char (replace Ch.space [] text).
Proof.
  rewrite normalize_flat_map. unfold replace.
  induction text as [|c r IH]; [reflexivity|]. simpl.
  now rewrite flat_map_app, IH, norm_char_confusion.
Qed.

(** C3.  After the spaces are removed, line 45 is one pass that turns the
    full-width colon and the semicolon into [":"], drops ["|"], and turns
    ["I"] into ["1"] and ["O"] into ["0"], keeping every other character; it
    is the chain of [replace] calls in the order of the source, and the
    colon split works on its result.  ["12;O.5, -3, 1OO"] is cleaned to
    ["12:0.5,-3,100"], anchored to ["0.5,-3,100"], and gives
    (0.5, -3.0, 100.0). *)
Theorem normalize_substitutions (U : UnicodeDb) (text : pystr) :
  normalize text = flat_map confusion_char (replace Ch.space [] text)
  /\ normalize text
     = replace Ch.letter_O [Ch.zero]
         (replace Ch.letter_I [Ch.one]
           (replace Ch.bar []
             (replace Ch.semicolon [Ch.colon]
               (replace Ch.fw_colon [Ch.colon]
                 (replace Ch.space [] text)))))
  /\ extract_coordinates U text
     = first_three U
         (findall U (anchor (flat_map confusion_char (replace Ch.space [] text))))
  /\ normalize (utf8 "12;O.5, -3, 1OO") = utf8 "12:0.5,-3,100"
  /\ anchor (normalize (utf8 "12;O.5, -3, 1OO")) = utf8 "0.5,-3,100"
  /\ extract_coordinates U (utf8 "12;O.5, -3, 1OO")
     = Some (b64 1 (-1), b64 (-3) 0, b64 100 0).
Proof.
  repeat split.
  - apply normalize_confusion.
  - unfold extract_coordinates. now rewrite normalize_confusion.
  - rewrite extract_coordinates_ascii; reflexivity.
Qed.

Lemma filter_app_flat_map (f : char -> bool) (g : char -> pystr) s :
  (forall c, filter f (g c) = if f c then [c] else []) ->
  filter f (flat_map g s) = filter f s.
Proof.
  intros H. induction s as [|c r IH]; simpl; [reflexivity|].
  rewrite filter_app, H, IH. now destruct (f c).
Qed.

Lemma norm_char_other_whitespace c :
  filter other_whitespace (norm_char c) = if other_whitespace c then [c] else [].
Proof.
  unfold norm_char.
  destruct (N.eqb_spec c Ch.space) as [->|H1]; [reflexivity|].
  destruct (N.eqb_spec c Ch.fw_colon) as [->|H2]; [reflexivity|].
  destruct (N.eqb_spec c Ch.semicolon) as [->|H3]; [reflexivity|].
  destruct (N.eqb_spec c Ch.bar) as [->|H4]; [reflexivity|].
  destruct (N.eqb_spec c Ch.letter_I) as [->|H5]; [reflexivity|].
  destruct (N.eqb_spec c Ch.letter_O) as [->|H6]; [reflexivity|].
  reflexivity.
Qed.

Lemma norm_char_no_space c : ~ In Ch.space (norm_char c).
Proof.
  unfold norm_char.
  destruct (N.eqb_spec c Ch.space) as [->|H1]; [simpl; tauto|].
  repeat match goal with
         | |- context [(?a =? ?b)%N] => destruct (a =? b)%N
         end; simpl; unfold Ch.colon, Ch.one, Ch.zero, Ch.space in *;
    intuition (try discriminate; congruence).
Qed.

(** C4 as the code has it.  Line 45 removes the space character U+0020 and
    nothing else of the white space: the cleaned text has no space, and its
    other white-space characters (line breaks, tabs, ...) are those of the
    input, in the same order. *)
Theorem normalize_strips_spaces_only (text : pystr) :
  ~ In Ch.space (normalize text)
  /\ filter other_whitespace (normalize text) = filter other_whitespace text.
Proof.
  rewrite normalize_flat_map. split.
  - intros H. apply in_flat_map in H as (c & _ & Hc).
    exact (@norm_char_no_space _ Hc).
  - apply filter_app_flat_map, norm_char_other_whitespace.
Qed.

(** C4 as the specification words it fails on a text with a line break and
    a tab: both are white space, both survive the cleaning and reach the
    colon split and the scan. *)
Lemma normalize_keeps_line_breaks :
  let text := [Ch.one; Ch.newline; Ch.tab; Ch.zero] in
  is_whitespace Ch.newline = true /\ is_whitespace Ch.tab = true
  /\ normalize text = text
  /\ anchor (normalize text) = text
  /\ existsb is_whitespace (anchor (normalize text)) = true.
Proof. vm_compute. repeat split. Qed.

(** C10.  Every match of the pattern has a digit, is none of ["."], ["+"],
    ["-"], and is accepted by [float]; so [extract_coordinates], a total
    function, answers [None] exactly when there are fewer than three
    matches, never through the [ValueError] handler. *)
Theorem extract_coordinates_total (U : UnicodeDb) (text : pystr) :
  let numbers := findall U (anchor (normalize text)) in
  Forall (fun tok =>
            (exists d, In d tok /\ is_digit U d = true)
            /\ tok <> [Ch.dot] /\ tok <> [Ch.plus] /\ tok <> [Ch.minus]
            /\ exists x, float_of_str U tok = Some x) numbers
  /\ (extract_coordinates U text = None <-> (length numbers < 3)%nat)
  /\ (forall t, extract_coordinates U text = Some t <-> (3 <= length numbers)%nat
                /\ first_three U numbers = Some t).
Proof.
  intros numbers.
  pose proof (findall_tokens U (anchor (normalize text))) as Htok.
  fold numbers in Htok. split; [|split].
  - apply Forall_forall. intros tok Hin.
    rewrite Forall_forall in Htok. specialize (Htok tok Hin).
    destruct (number_token_has_digit Htok) as (d & Hd & Hdig).
    assert (Hone : forall c, is_digit U c = false -> tok <> [c]).
    { intros c Hc ->. destruct Hd as [<-|[]]. congruence. }
    repeat split.
    + now exists d.
    + apply Hone, dot_not_digit.
    + now apply Hone, sign_not_digit.
    + now apply Hone, sign_not_digit.
    + now apply float_of_number_token.
  - pose proof (first_three_tokens Htok) as H3.
    unfold extract_coordinates. fold numbers.
    destruct numbers as [|a [|b [|c rest]]]; simpl.
    1-3: split; [lia | intros _; exact H3].
    destruct H3 as (x & y & z & _ & _ & _ & ->).
    split; [discriminate | lia].
  - intros t. unfold extract_coordinates. fold numbers. split.
    + intros H. split; [|exact H]. unfold first_three in H.
      destruct (3 <=? length numbers)%nat eqn:E; [|discriminate].
      now apply Nat.leb_le.
    + tauto.
Qed.

(* ================================================================== *)
(** * Properties of the enhancer, the debug snapshot and the loop *)

Lemma Qgtb_true x y : Qgtb x y = true <-> (y < x)%Q.
Proof.
  unfold Qgtb. rewrite negb_true_iff, <- not_true_iff_false, Qle_bool_iff.
  split; [apply Qnot_le_lt | apply Qlt_not_le].
Qed.

Lemma Qgtb_false x y : Qgtb x y = false <-> (x <= y)%Q.
Proof. unfold Qgtb. now rewrite negb_false_iff, Qle_bool_iff. Qed.

Lemma sleep_duration_cases e :
  ((e <= 4 # 10)%Q /\ (sleep_duration e == (1 # 2) - e)%Q)
  \/ ((4 # 10 <= e)%Q /\ (sleep_duration e == 1 # 10)%Q).
Proof.
  unfold sleep_duration.
  destruct (Q.max_spec (1 # 10) ((1 # 2) - e)) as [[H E]|[H E]].
  - left. split; [lra|exact E].
  - right. split; [lra|exact E].
Qed.

Unset Implicit Arguments.

Lemma slice_len_empty start stop len :
  0 <= stop <= start -> slice_len start stop len = 0%N.
Proof.
  intros H. unfold slice_len, slice_index.
  destruct (Z.ltb_spec stop 0), (Z.ltb_spec start 0); lia.
Qed.

Lemma round_half_even_floor x : Qfloor x <= round_half_even x.
Proof.
  unfold round_half_even.
  destruct (Qcompare (x - inject_Z (Qfloor x)) (1 # 2)); [|lia|lia].
  destruct (Z.even (Qfloor x)); lia.
Qed.

(** A side of at least one pixel stays of at least one pixel when scaled by
    2.5. *)
Lemma scaled_nonzero (n : N) : n <> 0%N -> scaled n <> 0%N.
Proof.
  intros Hn. unfold scaled.
  assert (H1 : (inject_Z 1 <= inject_Z (Z.of_N n))%Q)
    by (rewrite <- Zle_Qle; lia).
  assert (H2 : (inject_Z 2 <= inject_Z (Z.of_N n) * (5 # 2))%Q).
  { change (inject_Z 1) with 1%Q in H1. change (inject_Z 2) with 2%Q. lra. }
  apply Qfloor_resp_le in H2. rewrite Qfloor_Z in H2.
  pose proof (round_half_even_floor (inject_Z (Z.of_N n) * (5 # 2))%Q). lia.
Qed.

Section EnhancerFacts.

Context {Image : Type} `{CV : OpenCV Image}.

Lemma debug_snapshot_due (self : tracker) (img : Image) t :
  (5 < t - last_debug_time self)%Q ->
  debug_snapshot self img t = (set_last_debug_time self t, [Imwrite img]).
Proof. intros H. unfold debug_snapshot. now rewrite (proj2 (Qgtb_true _ _) H). Qed.

Lemma debug_snapshot_early (self : tracker) (img : Image) t :
  (t - last_debug_time self <= 5)%Q ->
  debug_snapshot self img t = (self, []).
Proof. intros H. unfold debug_snapshot. now rewrite (proj2 (Qgtb_false _ _) H). Qed.

Lemma debug_snapshot_dec (self : tracker) (img : Image) t :
  debug_snapshot self img t
  = if Qlt_le_dec 5 (t - last_debug_time self)
    then (set_last_debug_time self t, [Imwrite img])
    else (self, []).
Proof.
  destruct (Qlt_le_dec 5 (t - last_debug_time self)) as [H|H].
  - now apply debug_snapshot_due.
  - now apply debug_snapshot_early.
Qed.

Lemma debug_snapshot_cases (self : tracker) (img : Image) (now : Q) :
  (debug_snapshot self img now = (self, [])
   /\ (now - last_debug_time self <= 5)%Q)
  \/ (debug_snapshot self img now = (set_last_debug_time self now, [Imwrite img])
      /\ (5 < now - last_debug_time self)%Q).
Proof.
  destruct (Qlt_le_dec 5 (now - last_debug_time self)) as [H|H].
  - right. split; [now apply debug_snapshot_due|exact H].
  - left. split; [now apply debug_snapshot_early|exact H].
Qed.

Lemma rows_crop (img : Image) t b l r :
  rows (crop img t b l r) = slice_len t b (Z.of_N (rows img)).
Proof. unfold rows. now rewrite shape_crop. Qed.

Lemma cols_crop (img : Image) t b l r :
  cols (crop img t b l r) = slice_len l r (Z.of_N (cols img)).
Proof. unfold cols. now rewrite shape_crop. Qed.

Lemma channels_crop (img : Image) t b l r :
  channels (crop img t b l r) = channels img.
Proof. unfold channels. now rewrite shape_crop. Qed.

Lemma is_bgr8_crop (img : Image) t b l r :
  is_bgr8 (crop img t b l r) = is_bgr8 img.
Proof. unfold is_bgr8, channels, dtype_of. now rewrite shape_crop. Qed.

Lemma size_nonzero (img : Image) :
  size img <> 0%N -> rows img <> 0%N /\ cols img <> 0%N /\ channels img <> 0%N.
Proof. unfold size. nia. Qed.

Lemma is_bgr8_spec (img : Image) :
  is_bgr8 img = true <-> channels img = 3%N /\ dtype_of img = uint8.
Proof.
  unfold is_bgr8. rewrite andb_true_iff, N.eqb_eq.
  split; intros [H1 H2]; split; try assumption.
  - now destruct (dtype_of img).
  - now rewrite H2.
Qed.

(** On a non-empty 8-bit array of three channels each of the five steps is
    within what OpenCV takes, and the result is an 8-bit single-channel
    array 2.5 times as high and as wide. *)
Lemma enhance_bgr8 (roi : Image) :
  size roi <> 0%N -> is_bgr8 roi = true ->
  let gray := gray_pixels roi in
  let resized := cubic_pixels gray (scaled (rows roi)) (scaled (cols roi)) in
  let blurred := median_pixels resized 3 in
  let thresh := threshold_pixels blurred 255 13 2 in
  cv2_cvtColor_BGR2GRAY roi = Some gray
  /\ cv2_resize_cubic gray (5 # 2) (5 # 2) = Some resized
  /\ cv2_medianBlur resized 3 = Some blurred
  /\ cv2_adaptiveThreshold blurred 255 13 2 = Some thresh
  /\ enhance roi = Some (cv2_bitwise_not thresh)
  /\ shape_of (cv2_bitwise_not thresh)
     = {| nrows := scaled (rows roi); ncols := scaled (cols roi);
          nchannels := 1; elem := uint8 |}.
Proof.
  intros Hsize Hbgr gray resized blurred thresh.
  apply is_bgr8_spec in Hbgr as [Hch Hdt].
  destruct (size_nonzero roi Hsize) as (Hr & Hc & _).
  pose proof (scaled_nonzero (rows roi) Hr) as Hsr.
  pose proof (scaled_nonzero (cols roi) Hc) as Hsc.
  assert (Sg : shape_of gray
               = {| nrows := rows roi; ncols := cols roi;
                    nchannels := 1; elem := uint8 |}).
  { unfold gray. rewrite shape_gray. fold (dtype_of roi). now rewrite Hdt. }
  assert (Sr : shape_of resized
               = {| nrows := scaled (rows roi); ncols := scaled (cols roi);
                    nchannels := 1; elem := uint8 |}).
  { unfold resized. rewrite shape_cubic, Sg. reflexivity. }
  assert (Sb : shape_of blurred = shape_of resized)
    by (unfold blurred; apply shape_median).
  assert (St : shape_of thresh = shape_of resized)
    by (unfold thresh; rewrite shape_threshold; exact Sb).
  assert (E1 : cv2_cvtColor_BGR2GRAY roi = Some gray).
  { unfold cv2_cvtColor_BGR2GRAY, depth_8u_16u_32f.
    rewrite (proj2 (N.eqb_neq _ _) Hsize), Hch, Hdt. reflexivity. }
  assert (E2 : cv2_resize_cubic gray (5 # 2) (5 # 2) = Some resized).
  { unfold cv2_resize_cubic, size, rows, cols, channels. rewrite Sg.
    cbn [nrows ncols nchannels]. fold (scaled (rows roi)) (scaled (cols roi)).
    rewrite (proj2 (N.eqb_neq (scaled (rows roi)) 0) Hsr).
    rewrite (proj2 (N.eqb_neq (scaled (cols roi)) 0) Hsc).
    assert (Hz : (rows roi * cols roi * 1 =? 0)%N = false)
      by (apply N.eqb_neq; nia).
    rewrite Hz. reflexivity. }
  assert (E3 : cv2_medianBlur resized 3 = Some blurred).
  { unfold cv2_medianBlur, depth_8u_16u_32f, size, rows, cols, channels,
      dtype_of. rewrite Sr. cbn [nrows ncols nchannels elem].
    assert (Hz : (scaled (rows roi) * scaled (cols roi) * 1 =? 0)%N = false)
      by (apply N.eqb_neq; nia).
    rewrite Hz. reflexivity. }
  assert (E4 : cv2_adaptiveThreshold blurred 255 13 2 = Some thresh).
  { unfold cv2_adaptiveThreshold, channels, dtype_of. rewrite Sb, Sr.
    reflexivity. }
  repeat split; try assumption.
  - unfold enhance. now rewrite E1, E2, E3, E4.
  - unfold cv2_bitwise_not. now rewrite shape_not, St, Sr.
Qed.

(** An array with neither three nor four channels stops the first step. *)
Lemma enhance_needs_colour (roi : Image) :
  channels roi <> 3%N -> channels roi <> 4%N -> enhance roi = None.
Proof.
  intros H3 H4. unfold enhance, cv2_cvtColor_BGR2GRAY.
  destruct (size roi =? 0)%N; [reflexivity|].
  now rewrite (proj2 (N.eqb_neq _ _) H3), (proj2 (N.eqb_neq _ _) H4).
Qed.

Lemma preprocess_image_empty (self : tracker) (roi : option Image) now :
  match roi with None => True | Some img => size img = 0%N end ->
  preprocess_image self roi now = Returned (self, [], None).
Proof.
  destruct roi as [img|]; [|reflexivity]. intros H. simpl. now rewrite H.
Qed.

Lemma preprocess_image_nonempty (self : tracker) (img : Image) now :
  size img <> 0%N ->
  preprocess_image self (Some img) now
  = match enhance img with
    | Some final =>
        Returned (fst (debug_snapshot self final now),
                  snd (debug_snapshot self final now),
                  Some final)
    | None => Raised
    end.
Proof.
  intros H. simpl. apply N.eqb_neq in H. rewrite H.
  destruct (enhance img) as [final|]; [|reflexivity].
  now destruct (debug_snapshot self final now).
Qed.

(** C5.  On [None] and on an array of size 0 the enhancer returns [None]
    and raises nothing.  On a non-empty 8-bit array of three channels none of
    the five steps raises: grayscale, the 2.5-fold cubic resize, the 3x3
    median filter, the Gaussian adaptive threshold with block size 13 and
    constant 2, and the inversion each get an array OpenCV takes, and the
    enhanced image, 8-bit and single-channel, is returned. *)
Theorem preprocess_image_never_fails (self : tracker) (now : Q) :
  preprocess_image self None now = Returned (self, [], None)
  /\ (forall img : Image,
        size img = 0%N ->
        preprocess_image self (Some img) now = Returned (self, [], None))
  /\ (forall img : Image,
        size img <> 0%N -> channels img = 3%N -> dtype_of img = uint8 ->
        exists gray resized blurred thresh,
          cv2_cvtColor_BGR2GRAY img = Some gray
          /\ cv2_resize_cubic gray (5 # 2) (5 # 2) = Some resized
          /\ cv2_medianBlur resized 3 = Some blurred
          /\ cv2_adaptiveThreshold blurred 255 13 2 = Some thresh
          /\ enhance img = Some (cv2_bitwise_not thresh)
          /\ channels (cv2_bitwise_not thresh) = 1%N
          /\ dtype_of (cv2_bitwise_not thresh) = uint8
          /\ preprocess_image self (Some img) now
             = Returned
                 (fst (debug_snapshot self (cv2_bitwise_not thresh) now),
                  snd (debug_snapshot self (cv2_bitwise_not thresh) now),
                  Some (cv2_bitwise_not thresh))).
Proof.
  split; [reflexivity|]. split.
  - intros img H. exact (preprocess_image_empty self (Some img) now H).
  - intros img Hsize Hch Hdt.
    destruct (enhance_bgr8 img Hsize (proj2 (is_bgr8_spec img) (conj Hch Hdt)))
      as (E1 & E2 & E3 & E4 & E & S).
    eexists _, _, _, _. repeat split; try eassumption.
    + unfold channels. now rewrite S.
    + unfold dtype_of. now rewrite S.
    + now rewrite (preprocess_image_nonempty self img now Hsize), E.
Qed.

(** C6.  With the time of the last debug write as state ([0] after
    [__init__]): one run of lines 90-93 at time [t] writes the image and
    stores [t] when [t] minus the stored time exceeds 5, and otherwise writes
    nothing and changes nothing; [preprocess_image] runs them on every
    non-empty array its five steps take.  So after a write at [t], a second
    run at [t2] with [t2 - t <= 5] writes nothing (one write in all), and a
    run at [t3] with [t3 - t > 5] writes again. *)
Theorem debug_snapshot_throttle (self : tracker) (img : Image) (t : Q) :
  last_debug_time (init (camera_index self)) = 0%Q
  /\ debug_snapshot self img t
     = (if Qlt_le_dec 5 (t - last_debug_time self)
        then (set_last_debug_time self t, [Imwrite img])
        else (self, []))
  /\ (forall roi : Image,
        size roi <> 0%N ->
        preprocess_image self (Some roi) t
        = match enhance roi with
          | Some final =>
              Returned (fst (debug_snapshot self final t),
                        snd (debug_snapshot self final t),
                        Some final)
          | None => Raised
          end)
  /\ forall (img2 img3 : Image) (t2 t3 : Q),
       (5 < t - last_debug_time self)%Q -> (t2 - t <= 5)%Q -> (5 < t3 - t)%Q ->
       let (s1, w1) := debug_snapshot self img t in
       let (s2, w2) := debug_snapshot s1 img2 t2 in
       let (s3, w3) := debug_snapshot s2 img3 t3 in
       w1 = [Imwrite img] /\ last_debug_time s1 = t
       /\ w2 = [] /\ s2 = s1
       /\ imwrite_count (w1 ++ w2) = 1%nat
       /\ w3 = [Imwrite img3] /\ last_debug_time s3 = t3
       /\ imwrite_count (w1 ++ w2 ++ w3) = 2%nat.
Proof.
  split; [reflexivity|]. split; [apply debug_snapshot_dec|].
  split; [intros roi; apply preprocess_image_nonempty|].
  intros img2 img3 t2 t3 H1 H2 H3.
  rewrite (debug_snapshot_due self img t H1).
  rewrite (debug_snapshot_early (set_last_debug_time self t) img2 t2 H2).
  rewrite (debug_snapshot_due (set_last_debug_time self t) img3 t3 H3).
  repeat split.
Qed.

End EnhancerFacts.

Section PassFacts.

Context {Image : Type} `{CV : OpenCV Image}.
Variable image_to_string : Image -> pystr.
Variable U : UnicodeDb.
Variable cfg : settings.

Local Abbreviation the_loop := (loop image_to_string U cfg).
Local Abbreviation the_process := (process image_to_string U cfg).
Local Abbreviation the_start := (start image_to_string U cfg).
Local Abbreviation the_crop f :=
  (crop f (ROI_TOP cfg) (ROI_BOTTOM cfg) (ROI_LEFT cfg) (ROI_RIGHT cfg)).
Local Abbreviation the_crop_event :=
  (Crop (Image := Image) (ROI_TOP cfg) (ROI_BOTTOM cfg) (ROI_LEFT cfg)
     (ROI_RIGHT cfg)).
Local Abbreviation tracker_after self f now :=
  (fst (fst (the_process self f now))).
Local Abbreviation events_of self f now :=
  (snd (fst (the_process self f now))).

Lemma filter_imwrite_report text :
  filter is_imwrite (report (Image := Image) U text) = [].
Proof.
  unfold report. destruct (extract_coordinates U text) as [[[x y] z]|];
    [reflexivity|].
  now destruct (replace Ch.newline [Ch.space] (strip text)).
Qed.

Lemma report_events (text : pystr) :
  Forall (fun e : event Image => pass_event e = true /\ is_imwrite e = false
                                 /\ is_crop e = false)
    (report U text).
Proof.
  unfold report. destruct (extract_coordinates U text) as [[[x y] z]|].
  - repeat constructor.
  - destruct (replace Ch.newline [Ch.space] (strip text)); repeat constructor.
Qed.

(** The three shapes of a pass: an empty crop ends it; an array the
    enhancer does not take raises; otherwise the enhanced crop goes to the
    debug snapshot, then to OCR, then the text is reported. *)
Lemma process_cases (self : tracker) (f : Image) (now : Q) :
  (size (the_crop f) = 0%N
   /\ the_process self f now = (self, [the_crop_event], true))
  \/ (size (the_crop f) <> 0%N /\ enhance (the_crop f) = None
      /\ the_process self f now = (self, [the_crop_event; CvError], false))
  \/ (size (the_crop f) <> 0%N
      /\ exists final,
           enhance (the_crop f) = Some final
           /\ the_process self f now
              = (fst (debug_snapshot self final now),
                 the_crop_event
                   :: snd (debug_snapshot self final now)
                   ++ Ocr final :: report U (image_to_string final),
                 true)).
Proof.
  unfold process. destruct (N.eq_dec (size (the_crop f)) 0) as [E|E].
  - left. split; [exact E|].
    now rewrite (preprocess_image_empty self (Some (the_crop f)) now E).
  - right. rewrite (preprocess_image_nonempty self (the_crop f) now E).
    destruct (enhance (the_crop f)) as [final|].
    + right. split; [exact E|]. exists final. split; reflexivity.
    + left. repeat split. exact E.
Qed.

(** A pass on a frame of the camera comes to its end. *)
Lemma process_completes (self : tracker) (f : Image) (now : Q) :
  is_bgr8 f = true -> snd (the_process self f now) = true.
Proof.
  intros Hf.
  destruct (process_cases self f now) as [[_ E]|[(Hs & Hn & _)|(_ & final & _ & E)]];
    try (rewrite E; reflexivity).
  exfalso. rewrite <- (is_bgr8_crop f (ROI_TOP cfg) (ROI_BOTTOM cfg)
                         (ROI_LEFT cfg) (ROI_RIGHT cfg)) in Hf.
  destruct (enhance_bgr8 (the_crop f) Hs Hf) as (_ & _ & _ & _ & E & _).
  congruence.
Qed.

Lemma loop_unfold (self : tracker) (clock : Q) (sc : list (cycle Image)) :
  the_loop self clock sc
  = if negb (running self) then (self, [])
    else match sc with
         | [] => (self, [PrintStopping])
         | c :: rest =>
             if negb (ret c) then (self, grabs)
             else
               if negb (snd (the_process self (frame c) (clock + capture_time c)%Q))
               then (tracker_after self (frame c) (clock + capture_time c)%Q,
                     grabs ++ events_of self (frame c) (clock + capture_time c)%Q)
               else
                 let l := the_loop
                            (tracker_after self (frame c)
                               (clock + capture_time c)%Q)
                            (next_start clock c) rest in
                 (fst l,
                  grabs ++ events_of self (frame c) (clock + capture_time c)%Q
                    ++ Sleep (sleep_duration (elapsed_time clock c)) :: snd l)
         end.
Proof.
  destruct sc as [|c rest]; [reflexivity|]. cbn [loop].
  destruct (negb (running self)); [reflexivity|].
  destruct (negb (ret c)); [reflexivity|].
  destruct (process _ _ _ _ _ _) as [[s1 evs] completed]. cbn [fst snd].
  destruct (negb completed); [reflexivity|].
  now destruct (loop _ _ _ _ _ _).
Qed.

Lemma loop_cons (self : tracker) clock (c : cycle Image) rest :
  running self = true -> ret c = true ->
  the_loop self clock (c :: rest)
  = (fst (the_loop (tracker_after self (frame c) (clock + capture_time c)%Q)
            (next_start clock c) rest),
     [Grab; Grab; Grab; Grab; Grab; Retrieve]
       ++ events_of self (frame c) (clock + capture_time c)%Q
       ++ Sleep (sleep_duration (elapsed_time clock c))
       :: snd (the_loop (tracker_after self (frame c) (clock + capture_time c)%Q)
                 (next_start clock c) rest)).
Proof.
  intros Hrun H. rewrite loop_unfold, Hrun, H. cbn [negb].
  now rewrite (process_completes self (frame c) _ (frame_bgr c)).
Qed.

(** Induction over the passes of the loop: a property of the tracker before,
    the tracker after and the events holds of every run when it holds of the
    three ways a run ends and is kept by one more pass in front. *)
Lemma loop_induction (Q : cycle Image -> Prop)
    (P : tracker -> tracker -> list (event Image) -> Prop) :
  (forall self, P self self []) ->
  (forall self, P self self [PrintStopping]) ->
  (forall self, P self self grabs) ->
  (forall self clock c self2 tr,
      running self = true -> ret c = true -> Q c ->
      P (tracker_after self (frame c) (clock + capture_time c)%Q) self2 tr ->
      P self self2
        (grabs ++ events_of self (frame c) (clock + capture_time c)%Q
           ++ Sleep (sleep_duration (elapsed_time clock c)) :: tr)) ->
  forall sc, Forall Q sc ->
  forall self clock,
    P self (fst (the_loop self clock sc)) (snd (the_loop self clock sc)).
Proof.
  intros Hoff Hstop Hlost Hstep sc HQ.
  induction HQ as [|c rest Hc _ IH]; intros self clock.
  - rewrite loop_unfold. destruct (running self); cbn [negb fst snd]; auto.
  - destruct (running self) eqn:Hrun;
      [|rewrite loop_unfold, Hrun; apply Hoff].
    destruct (ret c) eqn:Hret;
      [|rewrite loop_unfold, Hrun, Hret; apply Hlost].
    rewrite (loop_cons self clock c rest Hrun Hret). cbn [fst snd].
    apply Hstep; auto.
Qed.

Lemma Forall_trivial (sc : list (cycle Image)) : Forall (fun _ => True) sc.
Proof. apply Forall_forall. auto. Qed.

Lemma process_head (self : tracker) (f : Image) now :
  exists tr, events_of self f now = the_crop_event :: tr.
Proof.
  destruct (process_cases self f now)
    as [[_ E]|[(_ & _ & E)|(_ & final & _ & E)]]; rewrite E; cbn [fst snd]; eauto.
Qed.

Lemma process_empty_roi (self : tracker) (f : Image) now :
  0 <= ROI_BOTTOM cfg <= ROI_TOP cfg \/ 0 <= ROI_RIGHT cfg <= ROI_LEFT cfg ->
  size (the_crop f) = 0%N
  /\ the_process self f now = (self, [the_crop_event], true).
Proof.
  intros H.
  assert (E : size (the_crop f) = 0%N).
  { unfold size. rewrite rows_crop, cols_crop.
    destruct H as [H|H]; rewrite (slice_len_empty _ _ _ H); lia. }
  split; [exact E|].
  destruct (process_cases self f now) as [[_ P]|[(N & _)|(N & _)]];
    [exact P|congruence|congruence].
Qed.

Lemma process_events (self : tracker) (f : Image) (now : Q) :
  Forall (fun e => pass_event e = true) (events_of self f now).
Proof.
  destruct (process_cases self f now)
    as [[_ E]|[(_ & _ & E)|(_ & final & _ & E)]]; rewrite E; cbn [fst snd];
    [repeat constructor|repeat constructor|].
  constructor; [reflexivity|]. apply Forall_app. split.
  - destruct (debug_snapshot_cases self final now)
      as [[D _]|[D _]]; rewrite D; repeat constructor.
  - constructor; [reflexivity|].
    eapply Forall_impl; [|apply report_events]. now intros e [H _].
Qed.

(** The crops of a pass: one, with the offsets of the settings. *)
Lemma process_crops (self : tracker) (f : Image) (now : Q) :
  filter is_crop (events_of self f now) = [the_crop_event].
Proof.
  assert (R : forall text,
             filter is_crop (report (Image := Image) U text) = []).
  { intros text. pose proof (report_events text) as H.
    induction H as [|e l (_ & _ & He) _ IH]; [reflexivity|].
    cbn [filter]. now rewrite He. }
  destruct (process_cases self f now)
    as [[_ E]|[(_ & _ & E)|(_ & final & _ & E)]]; rewrite E; cbn [fst snd];
    try reflexivity.
  cbn [filter is_crop]. rewrite filter_app. cbn [filter is_crop]. rewrite R.
  destruct (debug_snapshot_cases self final now) as [[D _]|[D _]];
    rewrite D; reflexivity.
Qed.

(** What one pass does to the tracker and how often it writes. *)
Lemma process_effect (self : tracker) (f : Image) (now : Q) :
  (tracker_after self f now = self
   /\ imwrite_count (events_of self f now) = 0%nat)
  \/ (tracker_after self f now = set_last_debug_time self now
      /\ imwrite_count (events_of self f now) = 1%nat
      /\ (5 < now - last_debug_time self)%Q).
Proof.
  destruct (process_cases self f now)
    as [[_ E]|[(_ & _ & E)|(_ & final & _ & E)]]; rewrite E; cbn [fst snd];
    [left; split; reflexivity|left; split; reflexivity|].
  assert (R : forall w : list (event Image),
             imwrite_count
               (the_crop_event
                  :: w ++ Ocr final :: report U (image_to_string final))
             = imwrite_count w).
  { intros w. unfold imwrite_count. cbn [filter is_imwrite].
    rewrite filter_app. cbn [filter is_imwrite].
    rewrite filter_imwrite_report, app_nil_r. reflexivity. }
  rewrite R.
  destruct (debug_snapshot_cases self final now)
    as [[D H]|[D H]]; rewrite D; cbn [fst snd].
  - left. split; reflexivity.
  - right. repeat split. exact H.
Qed.


(** ** The crops and the writes of a run *)

Lemma filter_repeat_crop (n : nat) :
  filter is_crop (repeat the_crop_event n) = repeat the_crop_event n.
Proof. induction n as [|n IH]; [reflexivity|]. cbn. now rewrite IH. Qed.

Lemma loop_crops (sc : list (cycle Image)) : forall self clock,
  running self = true ->
  filter is_crop (snd (the_loop self clock sc))
  = repeat the_crop_event (frames_retrieved sc).
Proof.
  induction sc as [|c rest IH]; intros self clock Hrun;
    rewrite loop_unfold, Hrun; cbn [negb frames_retrieved]; [reflexivity|].
  destruct (ret c); cbn [negb]; [|reflexivity].
  rewrite (process_completes self (frame c) _ (frame_bgr c)). cbn [negb snd].
  rewrite !filter_app, process_crops. unfold grabs.
  cbn [filter is_crop app repeat]. f_equal. apply IH.
  destruct (process_effect self (frame c) (clock + capture_time c)%Q)
    as [[E _]|[E _]]; rewrite E; exact Hrun.
Qed.

Lemma loop_idle (sc : list (cycle Image)) self clock :
  running self = false -> the_loop self clock sc = (self, []).
Proof. intros H. now rewrite loop_unfold, H. Qed.

Lemma filter_retrieve_pass (tr : list (event Image)) :
  Forall (fun e => pass_event e = true) tr ->
  filter retrieve_or_crop tr = filter is_crop tr.
Proof.
  intros H. induction H as [|e tr He _ IH]; [reflexivity|].
  cbn [filter]. rewrite IH. now destruct e.
Qed.

Lemma loop_sliced_frames (sc : list (cycle Image)) : forall self clock,
  running self = true ->
  filter retrieve_or_crop (snd (the_loop self clock sc)) = sliced_frames cfg sc.
Proof.
  induction sc as [|c rest IH]; intros self clock Hrun;
    rewrite loop_unfold, Hrun; cbn [negb sliced_frames]; [reflexivity|].
  destruct (ret c); cbn [negb]; [|reflexivity].
  rewrite (process_completes self (frame c) _ (frame_bgr c)). cbn [negb snd].
  rewrite !filter_app, (filter_retrieve_pass _ (process_events self _ _)),
    process_crops.
  unfold grabs. cbn [filter retrieve_or_crop app]. do 2 f_equal. apply IH.
  destruct (process_effect self (frame c) (clock + capture_time c)%Q)
    as [[E _]|[E _]]; rewrite E; exact Hrun.
Qed.

Lemma preprocess_image_written (self : tracker) (roi : option Image) now
    self' w r :
  preprocess_image self roi now = Returned (self', w, r) ->
  filter is_imwrite w = w.
Proof.
  destruct roi as [img|]; cbn [preprocess_image].
  - destruct (size img =? 0)%N.
    + intros H. injection H as _ <- _. reflexivity.
    + destruct (enhance img) as [final|]; [|discriminate].
      destruct (debug_snapshot_cases self final now) as [[D _]|[D _]];
        rewrite D; intros H; injection H as _ <- _; reflexivity.
  - intros H. injection H as _ <- _. reflexivity.
Qed.

(** The writes among the events of a pass are those of its one call of
    [preprocess_image]. *)
Lemma process_writes (self : tracker) (f : Image) now :
  match preprocess_image self (Some (the_crop f)) now with
  | Returned (self', w, _) =>
      tracker_after self f now = self'
      /\ filter is_imwrite (events_of self f now) = w
      /\ snd (the_process self f now) = true
  | Raised =>
      filter is_imwrite (events_of self f now) = []
      /\ snd (the_process self f now) = false
  end.
Proof.
  unfold process.
  destruct (preprocess_image self (Some (the_crop f)) now)
    as [[[s1 w] [img|]]|] eqn:E; cbn [fst snd]; try (split; reflexivity).
  - pose proof (preprocess_image_written self _ now s1 w _ E) as Hw.
    repeat split. cbn [filter is_imwrite]. rewrite filter_app.
    cbn [filter is_imwrite]. now rewrite filter_imwrite_report, app_nil_r.
  - pose proof (preprocess_image_written self _ now s1 w _ E) as Hw.
    repeat split. exact Hw.
Qed.

Lemma loop_writes (sc : list (cycle Image)) : forall self clock,
  filter is_imwrite (snd (the_loop self clock sc))
  = enhancer_writes cfg self clock sc.
Proof.
  induction sc as [|c rest IH]; intros self clock; rewrite loop_unfold;
    cbn [enhancer_writes].
  - now destruct (running self).
  - destruct (running self); cbn [negb orb]; [|reflexivity].
    destruct (ret c); cbn [negb]; [|reflexivity].
    pose proof (process_writes self (frame c) (clock + capture_time c)%Q) as H.
    destruct (preprocess_image self (Some (the_crop (frame c)))
                (clock + capture_time c)%Q) as [[[s1 w] r]|].
    + destruct H as (Hs & Hw & Hc). rewrite Hc. cbn [negb snd].
      rewrite !filter_app, Hw, Hs. cbn [filter is_imwrite]. now rewrite IH.
    + destruct H as [Hw Hc]. rewrite Hc. cbn [negb snd].
      now rewrite filter_app, Hw.
Qed.

Lemma loop_skips_all (sc : list (cycle Image)) self clock :
  0 <= ROI_BOTTOM cfg <= ROI_TOP cfg \/ 0 <= ROI_RIGHT cfg <= ROI_LEFT cfg ->
  Forall (fun e => reads_or_writes e = false) (snd (the_loop self clock sc)).
Proof.
  intros Hroi.
  apply (loop_induction (fun _ => True)
           (fun _ _ tr => Forall (fun e => reads_or_writes e = false) tr));
    try apply Forall_trivial; try (intros _; repeat constructor).
  intros s clk c s2 tr _ _ _ IH.
  destruct (process_empty_roi s (frame c) (clk + capture_time c)%Q Hroi)
    as [_ E].
  rewrite E. cbn [fst snd]. repeat constructor. exact IH.
Qed.

(** C8 as the code has it.  [start] never looks at the ROI offsets: it gets
    past startup exactly when the Tesseract path exists and the camera opens,
    and then every pass that retrieves a frame slices it, once, with the
    offsets as they are: the crops of a run are as many as the frames
    retrieved, each with the offsets of the settings, and each retrieve that
    gives a frame is followed by its crop before the next retrieve.  When the
    offsets leave
    no rows or no columns ([0 <= bottom <= top] or [0 <= right <= left]) every
    crop is empty, the enhancer returns [None] on it, and no pass of the run
    makes a debug write, calls OCR or reports. *)
Theorem start_checks_no_roi (self : tracker) (env : environment Image) :
  started (snd (the_start self env)) = tesseract_exists env && cap_opened env
  /\ filter is_crop (snd (the_start self env))
     = (if tesseract_exists env && cap_opened env && running self
        then repeat the_crop_event (frames_retrieved (script env))
        else [])
  /\ filter retrieve_or_crop (snd (the_start self env))
     = (if tesseract_exists env && cap_opened env && running self
        then sliced_frames cfg (script env)
        else [])
  /\ (0 <= ROI_BOTTOM cfg <= ROI_TOP cfg \/ 0 <= ROI_RIGHT cfg <= ROI_LEFT cfg ->
      (forall self' f now,
          preprocess_image self' (Some (the_crop f)) now
          = Returned (self', [], None))
      /\ Forall (fun e => reads_or_writes e = false) (snd (the_start self env))).
Proof.
  split; [|split; [|split]].
  - unfold start.
    destruct (tesseract_exists env), (cap_opened env); try reflexivity.
    simpl. now destruct (loop _ _ _ _ _ _).
  - unfold start.
    destruct (tesseract_exists env); cbn [negb andb]; [|reflexivity].
    destruct (cap_opened env); cbn [negb andb]; [|reflexivity].
    destruct (running self) eqn:Hrun.
    + pose proof (loop_crops (script env) self (clock0 env) Hrun) as H.
      destruct (loop _ _ _ _ _ _) as [s' tr]. cbn [snd] in *.
      cbn [filter is_crop]. rewrite filter_app, H. cbn [filter is_crop].
      apply app_nil_r.
    + rewrite (loop_idle (script env) self (clock0 env) Hrun). reflexivity.
  - unfold start.
    destruct (tesseract_exists env); cbn [negb andb]; [|reflexivity].
    destruct (cap_opened env); cbn [negb andb]; [|reflexivity].
    destruct (running self) eqn:Hrun.
    + pose proof (loop_sliced_frames (script env) self (clock0 env) Hrun) as H.
      destruct (loop _ _ _ _ _ _) as [s' tr]. cbn [snd] in *.
      cbn [filter retrieve_or_crop]. rewrite filter_app, H.
      cbn [filter retrieve_or_crop]. apply app_nil_r.
    + rewrite (loop_idle (script env) self (clock0 env) Hrun). reflexivity.
  - intros Hroi. split.
    + intros self' f now. apply preprocess_image_empty.
      exact (proj1 (process_empty_roi self' f now Hroi)).
    + pose proof (loop_skips_all (script env) self (clock0 env) Hroi) as H.
      unfold start.
      destruct (tesseract_exists env); cbn [negb]; [|repeat constructor].
      destruct (cap_opened env); cbn [negb]; [|repeat constructor].
      destruct (loop _ _ _ _ _ _) as [s' tr]. cbn [snd] in *.
      constructor; [reflexivity|]. apply Forall_app.
      split; [exact H|repeat constructor].
Qed.

(** C9 as the code has it.  [preprocess_image] itself makes the throttled
    debug write: on [None], on an empty array, and when one of its steps
    raises, it writes nothing and leaves the tracker as it is; when the steps
    give the enhanced image and the clock is more than 5 past
    [last_debug_time] it writes that image to [debug_roi.png] and stores the
    clock, otherwise it writes nothing and leaves the tracker as it is.  The
    loop makes no debug write of its own: the writes of a whole run are
    those of the calls of [preprocess_image], one call for each frame
    retrieved. *)
Theorem preprocess_image_effects (self : tracker) (roi : option Image) (now : Q) :
  preprocess_image self roi now
  = match roi with
    | None => Returned (self, [], None)
    | Some img =>
        if (size img =? 0)%N then Returned (self, [], None)
        else
          match enhance img with
          | None => Raised
          | Some final =>
              if Qlt_le_dec 5 (now - last_debug_time self)
              then Returned (set_last_debug_time self now, [Imwrite final],
                             Some final)
              else Returned (self, [], Some final)
          end
    end
  /\ (forall env : environment Image,
        filter is_imwrite (snd (the_start self env))
        = (if tesseract_exists env && cap_opened env
           then enhancer_writes cfg self (clock0 env) (script env)
           else [])).
Proof.
  split.
  - destruct roi as [img|]; [|reflexivity]. cbn [preprocess_image].
    destruct (size img =? 0)%N; [reflexivity|].
    destruct (enhance img) as [final|]; [|reflexivity].
    rewrite debug_snapshot_dec. now destruct (Qlt_le_dec _ _).
  - intros env. pose proof (loop_writes (script env) self (clock0 env)) as H.
    unfold start.
    destruct (tesseract_exists env); cbn [negb andb]; [|reflexivity].
    destruct (cap_opened env); cbn [negb andb]; [|reflexivity].
    destruct (loop _ _ _ _ _ _) as [s' tr]. cbn [snd] in *.
    cbn [filter is_imwrite]. rewrite filter_app, H. cbn [filter is_imwrite].
    apply app_nil_r.
Qed.

End PassFacts.

(* ================================================================== *)
(** * The statements at concrete inputs *)

Lemma crop_source_settings :
  crop frame720 (ROI_TOP source_settings) (ROI_BOTTOM source_settings)
       (ROI_LEFT source_settings) (ROI_RIGHT source_settings) = roi0
  /\ enhance roi0 = Some enhanced0
  /\ enhance two_channels = None
  /\ preprocess_image (init 0) (Some two_channels) 10 = Raised.
Proof. repeat split. Qed.

Lemma preprocess_image_never_fails_witness :
  preprocess_image (init 0) (Some (crop frame720 160 10 10 600)) 10
  = Returned (init 0, [], None)
  /\ exists gray resized blurred thresh,
       cv2_cvtColor_BGR2GRAY roi0 = Some gray
       /\ cv2_resize_cubic gray (5 # 2) (5 # 2) = Some resized
       /\ cv2_medianBlur resized 3 = Some blurred
       /\ cv2_adaptiveThreshold blurred 255 13 2 = Some thresh
       /\ enhance roi0 = Some (cv2_bitwise_not thresh)
       /\ channels (cv2_bitwise_not thresh) = 1%N
       /\ dtype_of (cv2_bitwise_not thresh) = uint8
       /\ preprocess_image (init 0) (Some roi0) 10
          = Returned
              (fst (debug_snapshot (init 0) (cv2_bitwise_not thresh) 10),
               snd (debug_snapshot (init 0) (cv2_bitwise_not thresh) 10),
               Some (cv2_bitwise_not thresh)).
Proof.
  destruct (preprocess_image_never_fails (Image := shape) (init 0) 10)
    as (_ & Hempty & Hfull).
  split.
  - exact (Hempty (crop frame720 160 10 10 600) eq_refl).
  - exact (Hfull roi0 ltac:(discriminate) eq_refl eq_refl).
Defined.

Lemma debug_snapshot_throttle_witness :
  let self := set_last_debug_time (init 0) 990 in
  (5 < 1000 - last_debug_time self)%Q /\ (1003 - 1000 <= 5)%Q
  /\ (5 < 1006 - 1000)%Q
  /\ let (s1, w1) := debug_snapshot self enhanced0 1000 in
     let (s2, w2) := debug_snapshot s1 enhanced0 1003 in
     let (s3, w3) := debug_snapshot s2 enhanced0 1006 in
     w1 = [Imwrite enhanced0] /\ last_debug_time s1 = 1000%Q
     /\ w2 = [] /\ s2 = s1
     /\ imwrite_count (w1 ++ w2) = 1%nat
     /\ w3 = [Imwrite enhanced0] /\ last_debug_time s3 = 1006%Q
     /\ imwrite_count (w1 ++ w2 ++ w3) = 2%nat.
Proof.
  intros self.
  assert (H1 : (5 < 1000 - last_debug_time self)%Q) by reflexivity.
  assert (H2 : (1003 - 1000 <= 5)%Q) by (vm_compute; discriminate).
  assert (H3 : (5 < 1006 - 1000)%Q) by reflexivity.
  repeat (split; [assumption|]).
  exact (proj2 (proj2 (proj2 (debug_snapshot_throttle self enhanced0 1000)))
           enhanced0 enhanced0 1003%Q 1006%Q H1 H2 H3).
Defined.



(** C8 as the specification words it: with the top offset below the bottom
    one, [start] gets past startup all the same and the first pass slices the
    frame with those offsets. *)
Lemma invalid_roi_reaches_crop :
  let env := healthy [pass 0 0] in
  let tr := snd (start reads_nothing ascii_db upside_down (init 0) env) in
  roi_valid upside_down 720 1280 = false
  /\ started tr = true
  /\ firstn 8 tr = [PrintStarted; Grab; Grab; Grab; Grab; Grab; Retrieve;
                    Crop 160 10 10 600]
  /\ In PrintStopping tr.
Proof.
  intros env tr. repeat split. vm_compute. tauto.
Qed.

Lemma start_checks_no_roi_witness :
  let env := healthy [pass 0 0; pass 0 0] in
  filter retrieve_or_crop
    (snd (start reads_nothing ascii_db upside_down (init 0) env))
  = [Retrieve; Crop 160 10 10 600; Retrieve; Crop 160 10 10 600]
  /\ (forall self' f now,
        preprocess_image self'
          (Some (crop f (ROI_TOP upside_down) (ROI_BOTTOM upside_down)
                   (ROI_LEFT upside_down) (ROI_RIGHT upside_down))) now
        = Returned (self', [], None))
  /\ Forall (fun e => reads_or_writes e = false)
       (snd (start reads_nothing ascii_db upside_down (init 0) env)).
Proof.
  intros env.
  pose proof (start_checks_no_roi reads_nothing ascii_db upside_down (init 0) env)
    as (_ & _ & Hcrops & Hempty).
  split; [exact Hcrops|].
  apply Hempty. left. simpl. lia.
Defined.

(** C9 as the specification words it: one run of the enhancer on the crop
    of lines 18-19, ten seconds after a tracker was made, moves
    [last_debug_time] from 0 to 10 and puts the enhanced image in
    [debug_roi.png]. *)
Lemma enhancer_writes_debug_image :
  preprocess_image (init 0) (Some roi0) 10
  = Returned (set_last_debug_time (init 0) 10, [Imwrite enhanced0],
              Some enhanced0)
  /\ last_debug_time (init 0) = 0%Q
  /\ last_debug_time (set_last_debug_time (init 0) 10) = 10%Q
  /\ set_last_debug_time (init 0) 10 <> init 0
  /\ debug_roi_png None [Imwrite enhanced0] = Some enhanced0
  /\ debug_roi_png None [Imwrite enhanced0] <> (None : option shape).
Proof.
  repeat split; discriminate.
Qed.

(* ================================================================== *)
(** * Further properties of the text pipeline *)

Unset Implicit Arguments.

Section ScanFacts.

Variable U : UnicodeDb.

Lemma findall_aux_skip s : forall k,
  findall_aux U k s = findall_aux U 0 (skipn k s).
Proof.
  induction s as [|c r IH]; intros [|k]; try reflexivity.
  cbn [findall_aux skipn]. apply IH.
Qed.

Lemma number_token_nonempty tok : number_token U tok -> tok <> [].
Proof.
  intros H. destruct (number_token_has_digit H) as (d & Hd & _).
  intros ->. destruct Hd.
Qed.

(** The two equations of the scan. *)
Lemma findall_some s tok rest :
  match_number U s = Some (tok, rest) ->
  findall U s = tok :: findall U rest.
Proof.
  intros H. pose proof (match_number_shape U s H) as [Hs Ht].
  apply number_token_nonempty in Ht.
  destruct s as [|c r]; [discriminate|].
  destruct tok as [|c' tok']; [congruence|].
  simpl in Hs. injection Hs as <- ->.
  unfold findall. cbn [findall_aux]. rewrite H. f_equal.
  replace (length (c :: tok') - 1)%nat with (length tok') by (simpl; lia).
  rewrite findall_aux_skip, skipn_app, skipn_all, Nat.sub_diag. reflexivity.
Qed.

Lemma findall_none c r :
  match_number U (c :: r) = None -> findall U (c :: r) = findall U r.
Proof. intros H. unfold findall. cbn [findall_aux]. now rewrite H. Qed.

Lemma match_unsigned_token tok rest :
  unsigned_token U tok -> boundary U rest ->
  match_unsigned U (tok ++ rest) = Some (tok, rest).
Proof.
  intros (ds & fs & Hne & Hd & Hf & Ht) Hb. unfold match_unsigned.
  assert (Hb' : match rest with [] => True | c :: _ => is_digit U c = false end)
    by (destruct rest; [exact I|apply Hb]).
  destruct ds as [|d ds]; [congruence|].
  destruct Ht as [->| ->].
  - rewrite (span_run _ _ rest Hd Hb').
    destruct rest as [|c r]; [reflexivity|].
    destruct Hb as [_ Hc]. apply N.eqb_neq in Hc. now rewrite Hc.
  - rewrite <- app_assoc.
    change ((Ch.dot :: fs) ++ rest) with (Ch.dot :: fs ++ rest).
    rewrite (span_run (is_digit U) (d :: ds) (Ch.dot :: fs ++ rest) Hd
               (dot_not_digit U)).
    rewrite N.eqb_refl, (span_run _ _ rest Hf Hb'). reflexivity.
Qed.

(** A string of the pattern's shape, followed by the end or by a character
    that cannot continue it, is matched whole. *)
Lemma match_number_token tok rest :
  number_token U tok -> boundary U rest ->
  match_number U (tok ++ rest) = Some (tok, rest).
Proof.
  intros [Ht|(c & t & Hc & -> & Ht)] Hb.
  - destruct (unsigned_token_head Ht) as (d & r & E & Hd).
    pose proof (match_unsigned_token tok rest Ht Hb) as Hm.
    rewrite E in *. cbn [app] in *. unfold match_number.
    destruct (is_sign d) eqn:Hs; [|exact Hm].
    apply (sign_not_digit U) in Hs. congruence.
  - cbn [app]. unfold match_number. rewrite Hc.
    now rewrite (match_unsigned_token t rest Ht Hb).
Qed.

Lemma match_number_separator sep rest :
  is_digit U sep = false -> is_sign sep = false ->
  match_number U (sep :: rest) = None.
Proof.
  intros Hd Hs. unfold match_number, match_unsigned. rewrite Hs.
  cbn [span]. now rewrite Hd.
Qed.

Lemma match_number_digit c r :
  is_digit U c = true -> match_number U (c :: r) <> None.
Proof.
  intros Hd. unfold match_number.
  destruct (is_sign c) eqn:Hs; [apply (sign_not_digit U) in Hs; congruence|].
  unfold match_unsigned. cbn [span]. rewrite Hd.
  destruct (span (is_digit U) r) as [a b].
  destruct b as [|x b]; [discriminate|].
  destruct (x =? Ch.dot)%N; [|discriminate].
  now destruct (span (is_digit U) b).
Qed.

End ScanFacts.

(** X1.  Numbers of the pattern's shape, joined by a character that is no digit,
    no sign and no point, are found again exactly, in order. *)
Theorem findall_join (U : UnicodeDb) (sep : char) (toks : list pystr) :
  Forall (number_token U) toks ->
  is_digit U sep = false -> is_sign sep = false -> sep <> Ch.dot ->
  findall U (join sep toks) = toks.
Proof.
  intros Ht Hd Hs Hp. induction toks as [|t rest IH]; [reflexivity|].
  inversion_clear Ht as [|? ? Htok Hrest]. cbn [join].
  destruct rest as [|t2 rest].
  - rewrite <- (app_nil_r t) at 1.
    now rewrite (findall_some U _ t [] (match_number_token U t [] Htok I)).
  - rewrite (findall_some U _ t (sep :: join sep (t2 :: rest))
               (match_number_token U t (sep :: join sep (t2 :: rest)) Htok
                  (conj Hd Hp))).
    rewrite (findall_none U sep _ (match_number_separator U sep _ Hd Hs)).
    now rewrite (IH Hrest).
Qed.

Lemma findall_join_witness :
  findall ascii_db (join comma [utf8 "12.5"; utf8 "-3"; utf8 "+100."; utf8 "7"])
  = [utf8 "12.5"; utf8 "-3"; utf8 "+100."; utf8 "7"].
Proof.
  apply (findall_join ascii_db comma).
  - apply Forall_forall. intros tok Hin.
    assert (H : In tok (findall ascii_db (utf8 "12.5 -3 +100. 7")))
      by (vm_compute in Hin |- *; tauto).
    now apply findall_aux_tokens in H.
  - reflexivity.
  - reflexivity.
  - discriminate.
Defined.

(** X2.  The scan never passes over a digit: the digits of the matches are the
    digits of the text, in order. *)
Theorem findall_keeps_digits (U : UnicodeDb) (s : pystr) :
  filter (is_digit U) (concat (findall U s)) = filter (is_digit U) s.
Proof.
  remember (length s) as n eqn:Hn.
  assert (Hle : (length s <= n)%nat) by lia. clear Hn.
  revert s Hle. induction n as [|n IH]; intros s Hle.
  - destruct s; [reflexivity|simpl in Hle; lia].
  - destruct s as [|c r]; [reflexivity|].
    destruct (match_number U (c :: r)) as [[tok rest]|] eqn:Hm.
    + pose proof (match_number_shape U _ Hm) as [Hs Ht].
      apply number_token_nonempty in Ht.
      rewrite (findall_some U _ _ _ Hm), Hs. cbn [concat].
      rewrite !filter_app. f_equal. apply IH.
      apply (f_equal (@length char)) in Hs. rewrite length_app in Hs.
      destruct tok; [congruence|]. simpl in Hs, Hle. lia.
    + rewrite (findall_none U _ _ Hm). cbn [filter].
      destruct (is_digit U c) eqn:Hd.
      * exfalso. exact (match_number_digit U c r Hd Hm).
      * apply IH. simpl in Hle. lia.
Qed.

(** ** Line 45 twice is line 45 once *)

Lemma norm_char_fixed c : flat_map norm_char (norm_char c) = norm_char c.
Proof.
  unfold norm_char at 2.
  destruct (N.eqb_spec c Ch.space) as [->|H1]; [reflexivity|].
  destruct (N.eqb_spec c Ch.fw_colon) as [->|H2]; [reflexivity|].
  destruct (N.eqb_spec c Ch.semicolon) as [->|H3]; [reflexivity|].
  destruct (N.eqb_spec c Ch.bar) as [->|H4]; [reflexivity|].
  destruct (N.eqb_spec c Ch.letter_I) as [->|H5]; [reflexivity|].
  destruct (N.eqb_spec c Ch.letter_O) as [->|H6]; [reflexivity|].
  cbn [flat_map]. rewrite app_nil_r. unfold norm_char.
  repeat match goal with
         | H : ?a <> ?b |- context [(?a =? ?b)%N] =>
             rewrite (proj2 (N.eqb_neq a b) H)
         end.
  reflexivity.
Qed.

(** X4.  Cleaning a cleaned text changes nothing, so a text and its cleaned form
    give the same coordinates. *)
Theorem normalize_idempotent (U : UnicodeDb) (text : pystr) :
  normalize (normalize text) = normalize text
  /\ extract_coordinates U (normalize text) = extract_coordinates U text.
Proof.
  assert (H : normalize (normalize text) = normalize text).
  { rewrite !normalize_flat_map.
    induction text as [|c r IH]; [reflexivity|]. cbn [flat_map].
    now rewrite flat_map_app, IH, norm_char_fixed. }
  split; [exact H|]. unfold extract_coordinates. now rewrite H.
Qed.

(** ** What precedes the last colon does not matter *)

Lemma split_nonempty sep s : split sep s <> [].
Proof.
  destruct s as [|c r]; simpl; [discriminate|].
  destruct (c =? sep)%N; [discriminate|].
  destruct (split sep r); discriminate.
Qed.

Lemma last_cons_nonempty (x : pystr) (l : list pystr) :
  l <> [] -> last (x :: l) [] = last l [].
Proof. destruct l; [congruence|reflexivity]. Qed.

Lemma last_split_after sep pre suf :
  last (split sep (pre ++ sep :: suf)) [] = last (split sep suf) [].
Proof.
  induction pre as [|c p IH]; cbn [app split].
  - rewrite N.eqb_refl. apply last_cons_nonempty, split_nonempty.
  - destruct (c =? sep)%N.
    + rewrite last_cons_nonempty; [exact IH|apply split_nonempty].
    + rewrite <- IH.
      destruct (split_with sep (p ++ sep :: suf)) as (seg & segs & _ & l & E & _).
      { apply in_or_app. right. now left. }
      rewrite E. rewrite !last_cons_nonempty; try reflexivity;
        destruct segs; discriminate.
Qed.

Lemma anchor_after pre suf :
  ~ In Ch.colon suf -> anchor (pre ++ Ch.colon :: suf) = suf.
Proof.
  intros H. unfold anchor.
  rewrite (proj2 (contains_In Ch.colon (pre ++ Ch.colon :: suf)));
    [|apply in_or_app; right; now left].
  now rewrite last_split_after, (split_without Ch.colon suf H).
Qed.

Lemma norm_char_colon c : In Ch.colon (norm_char c) -> colon_like c = true.
Proof.
  unfold norm_char, colon_like.
  destruct (N.eqb_spec c Ch.space) as [->|H1]; [intros []|].
  destruct (N.eqb_spec c Ch.fw_colon) as [->|H2]; [reflexivity|].
  destruct (N.eqb_spec c Ch.semicolon) as [->|H3]; [reflexivity|].
  destruct (N.eqb_spec c Ch.bar) as [->|H4]; [intros []|].
  destruct (N.eqb_spec c Ch.letter_I) as [->|H5];
    [intros [E|[]]; discriminate|].
  destruct (N.eqb_spec c Ch.letter_O) as [->|H6];
    [intros [E|[]]; discriminate|].
  intros [->|[]]. reflexivity.
Qed.

Lemma normalize_colon_free s :
  existsb colon_like s = false -> ~ In Ch.colon (normalize s).
Proof.
  intros H Hin. rewrite normalize_flat_map in Hin.
  apply in_flat_map in Hin as (c & Hc & Hcol).
  apply norm_char_colon in Hcol.
  assert (existsb colon_like s = true) by (apply existsb_exists; eauto).
  congruence.
Qed.

Lemma norm_char_colon_like c : colon_like c = true -> norm_char c = [Ch.colon].
Proof.
  unfold colon_like. intros H.
  apply orb_true_iff in H as [H|H]; [apply orb_true_iff in H as [H|H]|];
    apply N.eqb_eq in H; subst c; reflexivity.
Qed.

Lemma anchor_normalize_after (pre t : pystr) (sepc : char) :
  colon_like sepc = true -> existsb colon_like t = false ->
  anchor (normalize (pre ++ sepc :: t)) = normalize t.
Proof.
  intros Hsep Ht. change (sepc :: t) with ([sepc] ++ t).
  rewrite !normalize_app, normalize_one, (norm_char_colon_like sepc Hsep).
  cbn [app]. exact (anchor_after _ _ (normalize_colon_free t Ht)).
Qed.

(** X3.  Whatever stands before a colon, a full-width colon or a semicolon
    has no influence when no such character follows: the result is that of
    the text after it.  In particular a text that ends in one of them gives
    [None], whatever numbers it holds. *)
Theorem extract_coordinates_ignores_label (U : UnicodeDb) (pre suf : pystr)
    (sepc : char) :
  colon_like sepc = true -> existsb colon_like suf = false ->
  extract_coordinates U (pre ++ sepc :: suf) = extract_coordinates U suf
  /\ extract_coordinates U (pre ++ [sepc]) = None.
Proof.
  intros Hsep Hsuf. split.
  - unfold extract_coordinates.
    rewrite (anchor_normalize_after pre suf sepc Hsep Hsuf).
    now rewrite (anchor_without (normalize suf) (normalize_colon_free suf Hsuf)).
  - unfold extract_coordinates.
    now rewrite (anchor_normalize_after pre [] sepc Hsep eq_refl).
Qed.

Lemma extract_coordinates_ignores_label_witness :
  extract_coordinates ascii_db (utf8 "Y: 7, 8; 1, 2, 3")
  = extract_coordinates ascii_db (utf8 " 1, 2, 3")
  /\ extract_coordinates ascii_db (utf8 "1, 2, 3;") = None.
Proof.
  split.
  - exact (proj1 (extract_coordinates_ignores_label ascii_db (utf8 "Y: 7, 8")
                    (utf8 " 1, 2, 3") Ch.semicolon eq_refl eq_refl)).
  - exact (proj2 (extract_coordinates_ignores_label ascii_db (utf8 "1, 2, 3")
                    [] Ch.semicolon eq_refl eq_refl)).
Defined.

(** ** The docstring's format *)

Lemma number_token_of_scan (U : UnicodeDb) tok :
  findall U tok = [tok] -> number_token U tok.
Proof.
  intros H. apply (findall_aux_tokens U tok 0 tok).
  fold (findall U tok). rewrite H. now left.
Qed.

Section PlainTokens.

Variable U : UnicodeDb.
Hypothesis fw_colon_not_digit : is_digit U Ch.fw_colon = false.

Local Abbreviation token_char := (token_char U).

Lemma unsigned_token_chars tok ch :
  unsigned_token U tok -> In ch tok -> token_char ch.
Proof.
  intros (ds & fs & _ & Hd & Hf & Ht) Hin.
  rewrite forallb_forall in Hd, Hf. unfold token_char.
  destruct Ht as [->| ->]; [left; auto|].
  apply in_app_or in Hin as [Hin|[<-|Hin]]; auto.
Qed.

Lemma number_token_chars tok ch :
  number_token U tok -> In ch tok -> token_char ch.
Proof.
  intros [Ht|(c & t & Hc & -> & Ht)] Hin.
  - exact (unsigned_token_chars tok ch Ht Hin).
  - destruct Hin as [<-|Hin]; [right; left; exact Hc|].
    exact (unsigned_token_chars t ch Ht Hin).
Qed.

Lemma ascii_not_token_char x :
  (x < 128)%N -> ascii_decimal x = None -> is_sign x = false -> x <> Ch.dot ->
  forall ch, token_char ch -> ch <> x.
Proof.
  intros Hx Hdec Hs Hp ch [H|[H|H]] ->; try congruence.
  unfold is_digit in H. rewrite (to_decimal_ascii U Hx), Hdec in H.
  discriminate.
Qed.

Lemma token_char_plain ch :
  token_char ch -> norm_char ch = [ch] /\ colon_like ch = false.
Proof.
  intros H.
  assert (Hfw : ch <> Ch.fw_colon).
  { destruct H as [H|[H|H]]; intros ->; try discriminate. congruence. }
  pose proof (ascii_not_token_char Ch.space eq_refl eq_refl eq_refl
                ltac:(discriminate) ch H) as H1.
  pose proof (ascii_not_token_char Ch.semicolon eq_refl eq_refl eq_refl
                ltac:(discriminate) ch H) as H2.
  pose proof (ascii_not_token_char Ch.bar eq_refl eq_refl eq_refl
                ltac:(discriminate) ch H) as H3.
  pose proof (ascii_not_token_char Ch.letter_I eq_refl eq_refl eq_refl
                ltac:(discriminate) ch H) as H4.
  pose proof (ascii_not_token_char Ch.letter_O eq_refl eq_refl eq_refl
                ltac:(discriminate) ch H) as H5.
  pose proof (ascii_not_token_char Ch.colon eq_refl eq_refl eq_refl
                ltac:(discriminate) ch H) as H6.
  unfold norm_char, colon_like.
  repeat match goal with
         | E : ?a <> ?b |- context [(?a =? ?b)%N] =>
             rewrite (proj2 (N.eqb_neq a b) E)
         end.
  split; reflexivity.
Qed.

Lemma number_token_plain tok :
  number_token U tok ->
  normalize tok = tok /\ existsb colon_like tok = false.
Proof.
  intros Ht.
  assert (H : forall ch, In ch tok -> norm_char ch = [ch] /\ colon_like ch = false)
    by (intros ch Hin; apply token_char_plain, (number_token_chars tok ch Ht Hin)).
  clear Ht. rewrite normalize_flat_map.
  induction tok as [|c r IH]; [split; reflexivity|].
  destruct (H c (or_introl eq_refl)) as [Hn Hc].
  destruct IH as [IH1 IH2]; [intros ch Hin; apply H; now right|].
  cbn [flat_map existsb]. rewrite Hn, Hc, IH1, IH2. split; reflexivity.
Qed.

(** X5.  A text in the format of the docstring, ["<label>: X, Y, Z"] with three
    numbers of the pattern's shape and any label at all, gives the three
    numbers, converted by [float], in order. *)
Theorem extract_coordinates_readout (label a b c : pystr) :
  number_token U a -> number_token U b -> number_token U c ->
  exists x y z,
    float_of_str U a = Some x /\ float_of_str U b = Some y
    /\ float_of_str U c = Some z
    /\ extract_coordinates U (readout label a b c) = Some (x, y, z).
Proof.
  intros Ha Hb Hc.
  destruct (number_token_plain a Ha) as [Na Ca].
  destruct (number_token_plain b Hb) as [Nb Cb].
  destruct (number_token_plain c Hc) as [Nc Cc].
  set (suf := Ch.space :: a ++ [comma; Ch.space] ++ b ++ [comma; Ch.space] ++ c).
  assert (Hsuf : existsb colon_like suf = false).
  { unfold suf. cbn [existsb]. rewrite !existsb_app, Ca, Cb, Cc. reflexivity. }
  assert (Hnorm : normalize suf = join comma [a; b; c]).
  { unfold suf. change (Ch.space :: a ++ ?r) with ([Ch.space] ++ a ++ r).
    rewrite !normalize_app, Na, Nb, Nc. reflexivity. }
  assert (Hread : readout label a b c = label ++ Ch.colon :: suf) by reflexivity.
  assert (Hcomma : is_digit U comma = false)
    by (unfold is_digit; now rewrite to_decimal_ascii).
  assert (Hdot : comma <> Ch.dot) by discriminate.
  assert (Hscan : findall U (join comma [a; b; c]) = [a; b; c]).
  { cbn [join].
    rewrite (findall_some U _ a (comma :: b ++ comma :: c)
               (match_number_token U a (comma :: b ++ comma :: c) Ha
                  (conj Hcomma Hdot))).
    rewrite (findall_none U comma _ (match_number_separator U comma _ Hcomma eq_refl)).
    rewrite (findall_some U _ b (comma :: c)
               (match_number_token U b (comma :: c) Hb (conj Hcomma Hdot))).
    rewrite (findall_none U comma _ (match_number_separator U comma _ Hcomma eq_refl)).
    rewrite <- (app_nil_r c) at 1.
    now rewrite (findall_some U _ c [] (match_number_token U c [] Hc I)). }
  assert (Hall : Forall (number_token U) [a; b; c])
    by (apply Forall_cons; [exact Ha|apply Forall_cons; [exact Hb|
        apply Forall_cons; [exact Hc|apply Forall_nil]]]).
  unfold extract_coordinates.
  rewrite Hread, (anchor_normalize_after label suf Ch.colon eq_refl Hsuf).
  rewrite Hnorm, Hscan. exact (first_three_tokens Hall).
Qed.

End PlainTokens.

Lemma extract_coordinates_readout_witness :
  exists x y z,
    float_of_str ascii_db (utf8 "12.5") = Some x
    /\ float_of_str ascii_db (utf8 "-3.0") = Some y
    /\ float_of_str ascii_db (utf8 "100.0") = Some z
    /\ extract_coordinates ascii_db
         (readout (utf8 "座標") (utf8 "12.5") (utf8 "-3.0") (utf8 "100.0"))
       = Some (x, y, z).
Proof.
  apply (extract_coordinates_readout ascii_db eq_refl (utf8 "座標"));
    apply number_token_of_scan; reflexivity.
Defined.

(* ================================================================== *)
(** * Further properties of the tracker *)

Lemma imwrite_count_app {Image} (a b : list (event Image)) :
  imwrite_count (a ++ b) = (imwrite_count a + imwrite_count b)%nat.
Proof. unfold imwrite_count. now rewrite filter_app, length_app. Qed.

Lemma no_write_bound (l : Q) : (5 * inject_Z (Z.of_nat 0) <= l - l)%Q.
Proof.
  change (inject_Z (Z.of_nat 0)) with 0%Q.
  setoid_replace (5 * 0)%Q with 0%Q by ring.
  setoid_replace (l - l)%Q with 0%Q by ring. apply Qle_refl.
Qed.

(** ** Lists in which each write is followed by its OCR call *)

Section WriteThenOcr.

Context {Image : Type}.

Lemma writes_then_ocr_tail (e : event Image) tr :
  writes_then_ocr (e :: tr) -> writes_then_ocr tr.
Proof. intros H pre img post E. apply (H (e :: pre) img post). now rewrite E. Qed.

Lemma writes_then_ocr_none (tr : list (event Image)) :
  filter is_imwrite tr = [] -> writes_then_ocr tr.
Proof.
  intros H pre img post E. exfalso.
  assert (Hin : In (Imwrite img) (filter is_imwrite tr)).
  { apply filter_In. split; [|reflexivity].
    rewrite E. apply in_or_app. right. now left. }
  rewrite H in Hin. destruct Hin.
Qed.

Lemma writes_then_ocr_app (a b : list (event Image)) :
  writes_then_ocr a -> writes_then_ocr b -> writes_then_ocr (a ++ b).
Proof.
  intros Ha Hb. induction a as [|e t IH]; [exact Hb|].
  specialize (IH (writes_then_ocr_tail e t Ha)).
  intros pre img post E. destruct pre as [|p pre]; cbn [app] in E.
  - injection E as -> <-.
    destruct (Ha [] img t eq_refl) as [post' ->]. now exists (post' ++ b).
  - injection E as _ E. exact (IH pre img post E).
Qed.

Lemma writes_then_ocr_pair (img : Image) tr :
  writes_then_ocr tr -> writes_then_ocr (Imwrite img :: Ocr img :: tr).
Proof.
  intros H pre x post E. destruct pre as [|p pre]; cbn [app] in E.
  - injection E as <- <-. now exists tr.
  - injection E as _ E. destruct pre as [|q pre]; cbn [app] in E.
    + discriminate.
    + injection E as _ E. exact (H pre x post E).
Qed.

End WriteThenOcr.

Section RunFacts.

Context {Image : Type} `{CV : OpenCV Image}.
Variable image_to_string : Image -> pystr.
Variable U : UnicodeDb.
Variable cfg : settings.

Local Abbreviation the_loop := (loop image_to_string U cfg).
Local Abbreviation the_process := (process image_to_string U cfg).
Local Abbreviation the_start := (start image_to_string U cfg).
Local Abbreviation the_crop f :=
  (crop f (ROI_TOP cfg) (ROI_BOTTOM cfg) (ROI_LEFT cfg) (ROI_RIGHT cfg)).
Local Abbreviation tracker_after self f now :=
  (fst (fst (the_process self f now))).
Local Abbreviation events_of self f now :=
  (snd (fst (the_process self f now))).

(** X8.  During any run the camera index and the [running] flag stay as they
    were, [last_debug_time] never goes back, and every debug write moves it
    on by more than 5: five times the number of writes is at most its
    increase. *)
Theorem loop_keeps_tracker (sc : list (cycle Image)) (self : tracker)
    (clock : Q) :
  let self' := fst (the_loop self clock sc) in
  let tr := snd (the_loop self clock sc) in
  camera_index self' = camera_index self
  /\ running self' = running self
  /\ (last_debug_time self <= last_debug_time self')%Q
  /\ (5 * inject_Z (Z.of_nat (imwrite_count tr))
      <= last_debug_time self' - last_debug_time self)%Q.
Proof.
  cbv zeta.
  apply (loop_induction image_to_string U cfg (fun _ => True)
           (fun s s' tr =>
              camera_index s' = camera_index s
              /\ running s' = running s
              /\ (last_debug_time s <= last_debug_time s')%Q
              /\ (5 * inject_Z (Z.of_nat (imwrite_count tr))
                  <= last_debug_time s' - last_debug_time s)%Q));
    try apply Forall_trivial;
    try (intros s; repeat split;
         [apply Qle_refl | exact (no_write_bound (last_debug_time s))]).
  intros s clk c s2 tr _ _ _ (Hc & Hr & Hl & Hn).
  assert (Hcount :
    imwrite_count
      (grabs ++ events_of s (frame c) (clk + capture_time c)%Q
         ++ Sleep (sleep_duration (elapsed_time clk c)) :: tr)
    = (imwrite_count (events_of s (frame c) (clk + capture_time c)%Q)
       + imwrite_count tr)%nat).
  { rewrite !imwrite_count_app. reflexivity. }
  rewrite Hcount. clear Hcount.
  destruct (process_effect image_to_string U cfg s (frame c)
              (clk + capture_time c)%Q)
    as [[E N]|(E & N & H)]; rewrite E in *; rewrite N.
  - repeat split; assumption.
  - cbn [set_last_debug_time camera_index running last_debug_time] in *.
    rewrite Nat2Z.inj_add, inject_Z_plus.
    change (inject_Z (Z.of_nat 1)) with 1%Q.
    repeat split; try assumption; lra.
Qed.

Lemma pass_event_not (e : event Image) (tr : list (event Image)) :
  Forall (fun x => pass_event x = true) tr -> pass_event e = false -> ~ In e tr.
Proof.
  intros H He Hin. rewrite Forall_forall in H. specialize (H e Hin). congruence.
Qed.

Lemma process_writes_then_ocr (self : tracker) (f : Image) (now : Q) :
  writes_then_ocr (events_of self f now).
Proof.
  destruct (process_cases image_to_string U cfg self f now)
    as [[_ E]|[(_ & _ & E)|(_ & final & _ & E)]]; rewrite E; cbn [fst snd];
    try (apply writes_then_ocr_none; reflexivity).
  apply (writes_then_ocr_app [_]); [apply writes_then_ocr_none; reflexivity|].
  assert (R : writes_then_ocr
                (Ocr final :: report (Image := Image) U (image_to_string final)))
    by (apply writes_then_ocr_none; cbn [filter is_imwrite];
        apply filter_imwrite_report).
  destruct (debug_snapshot_cases self final now) as [[D _]|[D _]];
    rewrite D; cbn [snd app]; [exact R|].
  apply writes_then_ocr_pair.
  exact (writes_then_ocr_tail _ _ R).
Qed.

(** X7.  Every image written to [debug_roi.png] is the image handed to OCR
    right after: wherever the events of a run hold an [imwrite], the next
    event is the OCR call on the same image. *)
Theorem debug_image_is_ocr_input (self : tracker) (env : environment Image) :
  forall pre img post,
    snd (the_start self env) = pre ++ Imwrite img :: post ->
    exists post', post = Ocr img :: post'.
Proof.
  assert (L : forall s clock,
             writes_then_ocr (snd (the_loop s clock (script env)))).
  { apply (loop_induction image_to_string U cfg (fun _ => True)
             (fun _ _ tr => writes_then_ocr tr));
      try apply Forall_trivial;
      try (intros _; apply writes_then_ocr_none; reflexivity).
    intros s clk c s2 tr _ _ _ IH.
    apply writes_then_ocr_app; [apply writes_then_ocr_none; reflexivity|].
    apply writes_then_ocr_app; [apply process_writes_then_ocr|].
    apply (writes_then_ocr_app [_]);
      [apply writes_then_ocr_none; reflexivity|exact IH]. }
  change (writes_then_ocr (snd (the_start self env))).
  unfold start.
  destruct (tesseract_exists env); cbn [negb];
    [|apply writes_then_ocr_none; reflexivity].
  destruct (cap_opened env); cbn [negb];
    [|apply writes_then_ocr_none; reflexivity].
  specialize (L self (clock0 env)).
  destruct (loop _ _ _ _ _ _) as [s' tr]. cbn [snd] in *.
  apply (writes_then_ocr_app [_]); [apply writes_then_ocr_none; reflexivity|].
  apply writes_then_ocr_app; [exact L|].
  apply writes_then_ocr_none. reflexivity.
Qed.

(** X9.  With no negative durations every sleep of a run lasts between 0.1 and
    0.5. *)
Theorem run_sleeps_bounded (self : tracker) (env : environment Image) :
  Forall (fun c => (0 <= capture_time c)%Q /\ (0 <= ocr_time c)%Q) (script env) ->
  Forall (sleeps_within (1 # 10) (1 # 2)) (snd (the_start self env)).
Proof.
  intros Hpos.
  assert (L : forall s clock,
    Forall (sleeps_within (1 # 10) (1 # 2)) (snd (the_loop s clock (script env)))).
  { apply (loop_induction image_to_string U cfg
             (fun c => (0 <= capture_time c)%Q /\ (0 <= ocr_time c)%Q)
             (fun _ _ tr => Forall (sleeps_within (1 # 10) (1 # 2)) tr));
      try exact Hpos; try (intros _; repeat constructor).
    intros s clk c s2 tr _ _ [Hc Ho] IH.
    apply Forall_app. split; [repeat constructor|].
    apply Forall_app. split.
    - eapply Forall_impl; [|apply (process_events image_to_string U cfg)].
      intros e He. now destruct e.
    - constructor; [|exact IH]. cbn [sleeps_within].
      assert (He : (elapsed_time clk c == capture_time c + ocr_time c)%Q)
        by (unfold elapsed_time; ring).
      destruct (sleep_duration_cases (elapsed_time clk c)) as [[H E]|[H E]];
        rewrite E; split; lra. }
  unfold start.
  destruct (tesseract_exists env); cbn [negb]; [|repeat constructor].
  destruct (cap_opened env); cbn [negb]; [|repeat constructor].
  specialize (L self (clock0 env)).
  destruct (loop _ _ _ _ _ _) as [s' tr]. cbn [snd] in *.
  constructor; [exact I|]. apply Forall_app. split; [exact L|repeat constructor].
Qed.

(** X10.  The camera is released exactly when the run got past startup, once, and
    as the last action before the closing message; the passes themselves
    never release it. *)
Theorem start_releases_once (self : tracker) (env : environment Image) :
  filter is_release (snd (the_start self env))
  = (if tesseract_exists env && cap_opened env then [Release] else [])
  /\ (started (snd (the_start self env)) = true ->
      exists tr,
        snd (the_start self env) = PrintStarted :: tr ++ [Release; PrintFinished]
        /\ Forall (fun e => loop_event e = true) tr).
Proof.
  assert (L : forall s clock,
    Forall (fun e => loop_event e = true) (snd (the_loop s clock (script env)))).
  { apply (loop_induction image_to_string U cfg (fun _ => True)
             (fun _ _ tr => Forall (fun e => loop_event e = true) tr));
      try apply Forall_trivial; try (intros _; repeat constructor).
    intros s clk c s2 tr _ _ _ IH.
    apply Forall_app. split; [repeat constructor|].
    apply Forall_app. split; [|constructor; [reflexivity|exact IH]].
    eapply Forall_impl; [|apply (process_events image_to_string U cfg)].
    intros e He. now destruct e. }
  assert (R : forall tr : list (event Image),
             Forall (fun e => loop_event e = true) tr -> filter is_release tr = []).
  { intros tr H. induction H as [|e tr He _ IH]; [reflexivity|].
    cbn [filter]. rewrite IH. now destruct e. }
  unfold start.
  destruct (tesseract_exists env); cbn [negb andb];
    [|split; [reflexivity|discriminate]].
  destruct (cap_opened env); cbn [negb andb];
    [|split; [reflexivity|discriminate]].
  specialize (L self (clock0 env)).
  destruct (loop _ _ _ _ _ _) as [s' tr]. cbn [snd] in *. split.
  - cbn [filter is_release]. rewrite filter_app, (R tr L). reflexivity.
  - intros _. exists tr. split; [reflexivity|exact L].
Qed.

(** X11.  When the camera stops giving frames the run ends there: whatever the
    script holds after the failed retrieve plays no part, and the run does
    not print the message of an operator's stop. *)
Theorem loop_stops_at_lost_frame (pre rest : list (cycle Image))
    (c : cycle Image) (self : tracker) (clock : Q) :
  ret c = false ->
  the_loop self clock (pre ++ c :: rest) = the_loop self clock (pre ++ [c])
  /\ ~ In PrintStopping (snd (the_loop self clock (pre ++ c :: rest))).
Proof.
  intros Hc. revert self clock.
  induction pre as [|p ps IH]; intros self clock; cbn [app].
  - rewrite !(loop_unfold image_to_string U cfg self clock).
    destruct (running self); cbn [negb snd]; [|split; [reflexivity|intros []]].
    rewrite Hc. cbn [negb snd]. split; [reflexivity|].
    cbn. intuition discriminate.
  - destruct (running self) eqn:Hrun;
      [|rewrite !(loop_idle image_to_string U cfg _ self clock Hrun);
        split; [reflexivity|intros []]].
    destruct (ret p) eqn:Hp.
    + rewrite !(loop_cons image_to_string U cfg self clock p _ Hrun Hp).
      destruct (IH (tracker_after self (frame p) (clock + capture_time p)%Q)
                  (next_start clock p)) as [E N].
      rewrite E. split; [reflexivity|]. rewrite <- E. cbn [snd]. intros H.
      apply in_app_or in H as [H|H]; [cbn in H; intuition discriminate|].
      apply in_app_or in H as [H|[H|H]]; [|discriminate|exact (N H)].
      exact (pass_event_not PrintStopping _
               (process_events image_to_string U cfg self (frame p) _) eq_refl H).
    + rewrite !(loop_unfold image_to_string U cfg self clock), Hrun, Hp.
      cbn [negb snd]. split; [reflexivity|cbn; intuition discriminate].
Qed.

End RunFacts.

Lemma slice_len_inside start stop len :
  0 <= start -> start <= stop -> stop <= len ->
  slice_len start stop len = Z.to_N (stop - start).
Proof.
  intros H1 H2 H3. unfold slice_len, slice_index.
  destruct (Z.ltb_spec stop 0), (Z.ltb_spec start 0); lia.
Qed.

Section RoiFacts.

Context {Image : Type} `{CV : OpenCV Image}.
Variable image_to_string : Image -> pystr.
Variable U : UnicodeDb.
Variable cfg : settings.

Local Abbreviation the_process := (process image_to_string U cfg).
Local Abbreviation the_crop f :=
  (crop f (ROI_TOP cfg) (ROI_BOTTOM cfg) (ROI_LEFT cfg) (ROI_RIGHT cfg)).

(** X12.  On an 8-bit frame of three channels, with offsets inside the
    frame, the crop has [bottom - top] rows and [right - left] columns, the
    enhancer takes it, and the pass comes to its end through OCR: its events
    are the crop, the debug write if one is due, the OCR call on the enhanced
    crop, and the report. *)
Theorem valid_roi_is_read (self : tracker) (f : Image) (now : Q) :
  roi_valid cfg (Z.of_N (rows f)) (Z.of_N (cols f)) = true ->
  is_bgr8 f = true ->
  rows (the_crop f) = Z.to_N (ROI_BOTTOM cfg - ROI_TOP cfg)
  /\ cols (the_crop f) = Z.to_N (ROI_RIGHT cfg - ROI_LEFT cfg)
  /\ exists final,
       enhance (the_crop f) = Some final
       /\ the_process self f now
          = (fst (debug_snapshot self final now),
             Crop (ROI_TOP cfg) (ROI_BOTTOM cfg) (ROI_LEFT cfg) (ROI_RIGHT cfg)
               :: snd (debug_snapshot self final now)
               ++ Ocr final :: report U (image_to_string final),
             true).
Proof.
  unfold roi_valid. intros H Hf.
  repeat (apply andb_true_iff in H as [H ?]).
  repeat match goal with
         | E : (_ <=? _) = true |- _ => apply Z.leb_le in E
         | E : (_ <? _) = true |- _ => apply Z.ltb_lt in E
         end.
  assert (Hr : rows (the_crop f) = Z.to_N (ROI_BOTTOM cfg - ROI_TOP cfg))
    by (rewrite rows_crop; apply slice_len_inside; lia).
  assert (Hc : cols (the_crop f) = Z.to_N (ROI_RIGHT cfg - ROI_LEFT cfg))
    by (rewrite cols_crop; apply slice_len_inside; lia).
  assert (Hch : channels (the_crop f) = 3%N)
    by (rewrite channels_crop; exact (proj1 (proj1 (is_bgr8_spec f) Hf))).
  assert (Hsize : size (the_crop f) <> 0%N)
    by (unfold size; rewrite Hr, Hc, Hch; nia).
  repeat split; try assumption.
  destruct (process_cases image_to_string U cfg self f now)
    as [[E _]|[(_ & N & _)|(_ & final & E & P)]]; [congruence| |eauto].
  exfalso. rewrite <- (is_bgr8_crop f (ROI_TOP cfg) (ROI_BOTTOM cfg)
                         (ROI_LEFT cfg) (ROI_RIGHT cfg)) in Hf.
  destruct (enhance_bgr8 (the_crop f) Hsize Hf) as (_ & _ & _ & _ & E & _).
  congruence.
Qed.

End RoiFacts.

Lemma valid_roi_is_read_witness :
  rows (crop frame720 10 160 10 600) = 150%N
  /\ cols (crop frame720 10 160 10 600) = 590%N
  /\ exists final,
       enhance (crop frame720 10 160 10 600) = Some final
       /\ process reads_nothing ascii_db source_settings (init 0) frame720 1000
          = (fst (debug_snapshot (init 0) final 1000),
             Crop 10 160 10 600
               :: snd (debug_snapshot (init 0) final 1000)
               ++ Ocr final :: report ascii_db (reads_nothing final),
             true).
Proof.
  exact (valid_roi_is_read reads_nothing ascii_db source_settings (init 0)
           frame720 1000 eq_refl eq_refl).
Defined.

(** ** The report of a pass *)

Lemma lstrip_blank s : lstrip s = [] <-> forallb is_whitespace s = true.
Proof.
  induction s as [|c r IH]; cbn [lstrip forallb]; [tauto|].
  destruct (is_whitespace c); cbn [andb]; [exact IH|].
  split; discriminate.
Qed.

Lemma lstrip_head s c r : lstrip s = c :: r -> is_whitespace c = false.
Proof.
  induction s as [|d t IH]; cbn [lstrip]; [discriminate|].
  destruct (is_whitespace d) eqn:E; [exact IH|].
  intros H. injection H as <- _. exact E.
Qed.

Lemma forallb_rev (f : char -> bool) s : forallb f (rev s) = forallb f s.
Proof.
  induction s as [|c r IH]; [reflexivity|]. cbn [rev forallb].
  rewrite forallb_app, IH. cbn [forallb]. rewrite andb_true_r. apply andb_comm.
Qed.

Lemma strip_blank s : strip s = [] <-> forallb is_whitespace s = true.
Proof.
  unfold strip. split.
  - intros H. apply (f_equal (@rev char)) in H. rewrite rev_involutive in H.
    cbn [rev] in H. apply lstrip_blank in H. rewrite forallb_rev in H.
    destruct (lstrip s) as [|c r] eqn:E; [now apply lstrip_blank|].
    apply lstrip_head in E. cbn [forallb] in H. rewrite E in H. discriminate.
  - intros H. apply lstrip_blank in H. rewrite H. reflexivity.
Qed.

Lemma replace_nil old new s : replace old new s = [] -> new <> [] -> s = [].
Proof.
  destruct s as [|c r]; [reflexivity|]. unfold replace. cbn [flat_map].
  destruct (c =? old)%N; [|discriminate].
  destruct new; [congruence|discriminate].
Qed.

(** X6.  A pass prints at most one line about the text.  It prints the three
    coordinates when there are some; otherwise it prints the text stripped
    of surrounding white space, with line breaks turned into spaces and cut
    to 40 characters, so never an empty line, never one with a line break;
    and it prints nothing exactly when there are no coordinates and the text
    is blank. *)
Theorem report_shape {Image : Type} (U : UnicodeDb) (text : pystr) :
  match report (Image := Image) U text with
  | [] => extract_coordinates U text = None
  | [PrintSuccess x y z] => extract_coordinates U text = Some (x, y, z)
  | [PrintRaw raw] =>
      extract_coordinates U text = None
      /\ raw = firstn 40 (replace Ch.newline [Ch.space] (strip text))
      /\ raw <> [] /\ (length raw <= 40)%nat /\ ~ In Ch.newline raw
  | _ => False
  end
  /\ (report (Image := Image) U text = []
      <-> extract_coordinates U text = None
          /\ forallb is_whitespace text = true).
Proof.
  unfold report. destruct (extract_coordinates U text) as [[[x y] z]|].
  - split; [reflexivity|]. split; [discriminate|intros [? _]; discriminate].
  - destruct (replace Ch.newline [Ch.space] (strip text)) as [|c r] eqn:E.
    + split; [reflexivity|]. split; [|reflexivity]. intros _.
      split; [reflexivity|]. apply strip_blank.
      apply (replace_nil _ _ _ E). discriminate.
    + split.
      * repeat split.
        -- discriminate.
        -- apply firstn_le_length.
        -- intros H.
           assert (H' : In Ch.newline (c :: r))
             by (rewrite <- (firstn_skipn 40 (c :: r)); apply in_or_app; now left).
           clear H. rename H' into H. rewrite <- E in H.
           unfold replace in H. apply in_flat_map in H as (d & _ & H).
           destruct (d =? Ch.newline)%N eqn:Ed.
           ++ destruct H as [H|[]]. discriminate.
           ++ destruct H as [H|[]]. subst d. rewrite N.eqb_refl in Ed.
              discriminate.
      * split; [discriminate|]. intros [_ H]. apply strip_blank in H.
        rewrite H in E. discriminate.
Qed.

(** ** [find_camera_index] and the entry point *)

Lemma probe_cameras_range5 (opens : Z -> bool) :
  probe_cameras opens range5
  = if opens 0 then (0, [OpenCapture 0; ReleaseCapture 0])
    else if opens 1 then (1, [OpenCapture 0; OpenCapture 1; ReleaseCapture 1])
    else if opens 2 then
      (2, [OpenCapture 0; OpenCapture 1; OpenCapture 2; ReleaseCapture 2])
    else if opens 3 then
      (3, [OpenCapture 0; OpenCapture 1; OpenCapture 2; OpenCapture 3;
           ReleaseCapture 3])
    else if opens 4 then
      (4, [OpenCapture 0; OpenCapture 1; OpenCapture 2; OpenCapture 3;
           OpenCapture 4; ReleaseCapture 4])
    else
      (0, [OpenCapture 0; OpenCapture 1; OpenCapture 2; OpenCapture 3;
           OpenCapture 4]).
Proof.
  unfold range5. cbn [probe_cameras].
  destruct (opens 0), (opens 1), (opens 2), (opens 3), (opens 4); reflexivity.
Qed.

(** X13.  [find_camera_index] answers the first of the indices 0 to 4 whose
    capture opens, whatever name it is given, and 0 when none of the five
    opens, so the answer 0 does not tell whether camera 0 opens.  It tries
    the indices in order up to the answer, releases the capture that opened
    and no other. *)
Theorem find_camera_index_least (opens : Z -> bool) (name : pystr) :
  let found := fst (find_camera_index opens name) in
  let evs := snd (find_camera_index opens name) in
  found = match find opens range5 with Some i => i | None => 0 end
  /\ 0 <= found < 5
  /\ (forall j, 0 <= j < found -> opens j = false)
  /\ opens found = existsb opens range5
  /\ evs = PrintSearching name
             :: (if opens found
                 then map OpenCapture (filter (fun i => i <=? found) range5)
                        ++ [ReleaseCapture found]
                 else map OpenCapture range5).
Proof.
  unfold find_camera_index. rewrite probe_cameras_range5. unfold range5.
  cbn [existsb find].
  assert (Hcase : forall (j : Z) (P : Prop), 0 <= j < 4 + 1 ->
            (j = 0 -> P) -> (j = 1 -> P) -> (j = 2 -> P) -> (j = 3 -> P) ->
            (j = 4 -> P) -> P).
  { intros j P Hj H0 H1 H2 H3 H4.
    assert (j = 0 \/ j = 1 \/ j = 2 \/ j = 3 \/ j = 4) as [H|[H|[H|[H|H]]]]
      by lia; auto. }
  destruct (opens 0) eqn:E0; [|destruct (opens 1) eqn:E1;
    [|destruct (opens 2) eqn:E2; [|destruct (opens 3) eqn:E3;
      [|destruct (opens 4) eqn:E4]]]];
    cbn; rewrite ?E0, ?E1, ?E2, ?E3, ?E4; cbn;
    (split; [reflexivity|split; [lia|split; [|split; reflexivity]]]);
    intros j Hj; apply (Hcase j); try lia; intros ->; try assumption; lia.
Qed.

Section MainFacts.

Context {Image : Type} `{CV : OpenCV Image}.
Variable image_to_string : Image -> pystr.
Variable U : UnicodeDb.
Variable cfg : settings.

Local Abbreviation the_main := (main image_to_string U cfg).
Local Abbreviation the_start := (start image_to_string U cfg).

Lemma start_keeps_camera (self : tracker) (env : environment Image) :
  camera_index (fst (the_start self env)) = camera_index self.
Proof.
  unfold start.
  destruct (tesseract_exists env); cbn [negb]; [|reflexivity].
  destruct (cap_opened env); cbn [negb]; [|reflexivity].
  assert (L : forall s clock,
    camera_index (fst (loop image_to_string U cfg s clock (script env)))
    = camera_index s).
  { apply (loop_induction image_to_string U cfg (fun _ => True)
             (fun s s' _ => camera_index s' = camera_index s));
      try apply Forall_trivial; try reflexivity.
    intros s clk c s2 tr _ _ _ ->.
    destruct (process_effect image_to_string U cfg s (frame c)
                (clk + capture_time c)%Q) as [[E _]|[E _]];
      now rewrite E. }
  specialize (L self (clock0 env)).
  now destruct (loop _ _ _ _ _ _).
Qed.

Lemma start_started (self : tracker) (env : environment Image) :
  started (snd (the_start self env)) = tesseract_exists env && cap_opened env.
Proof.
  unfold start.
  destruct (tesseract_exists env), (cap_opened env); try reflexivity.
  cbn [negb andb]. now destruct (loop _ _ _ _ _ _).
Qed.

Lemma probe_found_opens (opens : Z -> bool) :
  opens (fst (probe_cameras opens range5)) = existsb opens range5.
Proof.
  rewrite probe_cameras_range5. unfold range5. cbn [existsb].
  destruct (opens 0) eqn:E0; [exact E0|].
  destruct (opens 1) eqn:E1; [exact E1|].
  destruct (opens 2) eqn:E2; [exact E2|].
  destruct (opens 3) eqn:E3; [exact E3|].
  destruct (opens 4) eqn:E4; [exact E4|exact E0].
Qed.

(** X14.  The program as a whole: the tracker works on the index
    [find_camera_index] answered; and, the capture opening in [start] as it
    did while probing, the loop is entered exactly when the Tesseract path
    exists and one of the captures 0 to 4 opens. *)
Theorem main_enters_loop (opens : Z -> bool) (env : environment Image) :
  cap_opened env = opens (fst (find_camera_index opens TARGET_CAMERA_NAME)) ->
  camera_index (snd (fst (the_main opens env)))
  = fst (find_camera_index opens TARGET_CAMERA_NAME)
  /\ fst (fst (the_main opens env))
     = snd (find_camera_index opens TARGET_CAMERA_NAME)
  /\ started (snd (the_main opens env))
     = tesseract_exists env && existsb opens range5.
Proof.
  intros Hcap. rewrite <- probe_found_opens.
  unfold main, find_camera_index in *.
  destruct (probe_cameras opens range5) as [idx probes].
  cbn [fst snd] in *. rewrite <- Hcap.
  pose proof (start_keeps_camera (init idx) env) as Hk.
  pose proof (start_started (init idx) env) as Hs.
  destruct (start image_to_string U cfg (init idx) env) as [self' tr].
  cbn [fst snd] in *. repeat split; assumption.
Qed.

End MainFacts.

(** ** The further statements at concrete inputs *)

Lemma debug_image_is_ocr_input_witness :
  let env := healthy [pass 0 0] in
  let tr := snd (start reads_nothing ascii_db source_settings (init 0) env) in
  tr = firstn 8 tr ++ Imwrite enhanced0 :: skipn 9 tr
  /\ exists post', skipn 9 tr = Ocr enhanced0 :: post'.
Proof.
  intros env tr. split; [reflexivity|].
  exact (debug_image_is_ocr_input reads_nothing ascii_db source_settings
           (init 0) env (firstn 8 tr) enhanced0 (skipn 9 tr) eq_refl).
Defined.

Lemma run_sleeps_bounded_witness :
  let env := healthy [pass (1 # 10) (1 # 5); pass 1 2] in
  Forall (sleeps_within (1 # 10) (1 # 2))
    (snd (start reads_nothing ascii_db source_settings (init 0) env)).
Proof.
  intros env.
  apply (run_sleeps_bounded reads_nothing ascii_db source_settings (init 0) env).
  repeat constructor; vm_compute; discriminate.
Defined.

Lemma start_releases_once_witness :
  let env := healthy [pass 0 0] in
  exists tr,
    snd (start reads_nothing ascii_db source_settings (init 0) env)
    = PrintStarted :: tr ++ [Release; PrintFinished]
    /\ Forall (fun e => loop_event e = true) tr.
Proof.
  intros env.
  exact (proj2 (start_releases_once reads_nothing ascii_db source_settings
                  (init 0) env) eq_refl).
Defined.

Lemma loop_stops_at_lost_frame_witness :
  let lost := {| ret := false; frame := frame720; frame_bgr := eq_refl;
                 capture_time := 0; ocr_time := 0 |} in
  loop reads_nothing ascii_db source_settings (init 0) 1000
    ([pass 0 0] ++ lost :: [pass 0 0; pass 0 0])
  = loop reads_nothing ascii_db source_settings (init 0) 1000
      ([pass 0 0] ++ [lost]).
Proof.
  intros lost.
  exact (proj1 (loop_stops_at_lost_frame reads_nothing ascii_db source_settings
                  [pass 0 0] [pass 0 0; pass 0 0] lost (init 0) 1000 eq_refl)).
Defined.

Lemma main_enters_loop_witness :
  let opens := fun i => (i =? 2) || (i =? 3) in
  let env := {| tesseract_exists := true; cap_opened := true;
                clock0 := 1000; script := [pass 0 0] |} in
  camera_index
    (snd (fst (main reads_nothing ascii_db source_settings opens env))) = 2
  /\ started (snd (main reads_nothing ascii_db source_settings opens env))
     = true.
Proof.
  intros opens env.
  destruct (main_enters_loop reads_nothing ascii_db source_settings opens env
              eq_refl) as (H1 & _ & H3).
  split; [exact H1|exact H3].
Defined.
